(** * Transshipment LP: the model built by [solve_transshipment_problem]

    A shallow embedding of [util/transshipment2_utils.py].

    - The dictionaries [nodes], [supply] and [demand] are only looked up:
      they are finite maps.  [cost] and [flow] are also iterated, in the
      order in which their keys were inserted: they are ordered
      dictionaries.  A lookup [d[k]] that fails raises [KeyError] in an
      error monad.
    - Numbers are rationals, the idealisation of Python's numbers.
    - The objects of the LP library are records; an expression is the
      formal sum the source writes down, except that a product with the
      number 0 has no term, as in the library; names lose the characters
      the library replaces; a constraint whose name is taken is refused.
    - [problem.solve()] puts the variable [__dummy] into an objective that
      has no variable and leaves it there; the table and the total cost are
      read from the problem as the solve step leaves it.
    - The solver proper and the renderers of the charts are a parameter
      [Libraries].  What a solver owes its caller is stated as
      [solver_contract]. *)

From Stdlib Require Import QArith Lqa Ascii.
From stdpp Require Import gmap strings list fin_maps.

Local Open Scope string_scope.

(** ** Exceptions *)

(** Nodes are named by strings; an arc is a key [(i, j)] of [cost]. *)
Abbreviation node := string.
Abbreviation arc := (string * string)%type.

(** The key a failed dictionary lookup reports. *)
Inductive pykey :=
| KeyStr (s : string)
| KeyArc (a : arc).

Inductive library := SolverLib | PlotLib.

(** [PulpError] is the modelling library's own exception; [LibraryError]
    stands for whatever else the solver or a renderer raises. *)
Inductive exn :=
| KeyError (k : pykey)
| TypeError (msg : string)
| PulpError (msg : string)
| LibraryError (l : library) (msg : string).

Definition is_KeyError (e : exn) : Prop := ∃ k, e = KeyError k.
Definition is_PulpError (e : exn) : Prop := ∃ msg, e = PulpError msg.

(** What [f"{x:.1f}"] raises when [x] is [None]. *)
Definition format_error : exn :=
  TypeError "unsupported format string passed to NoneType.__format__".

Inductive result (A : Type) :=
| Ok (a : A)
| Raise (e : exn).
Arguments Ok {A} a.
Arguments Raise {A} e.

#[global] Instance result_ret : MRet result := @Ok.
#[global] Instance result_bind : MBind result := λ A B f m,
  match m with Ok a => f a | Raise e => Raise e end.

(** [d[k]] on a Python dict. *)
Definition getitem {K V M : Type} `{Lookup K V M} (mk : K → pykey) (d : M)
    (k : K) : result V :=
  match d !! k with
  | Some v => Ok v
  | None => Raise (KeyError (mk k))
  end.

(** A [for] loop whose body may raise, threading the loop state. *)
Fixpoint foldM {A S} (body : S → A → result S) (s : S) (l : list A) : result S :=
  match l with
  | [] => Ok s
  | x :: l' => s' ← body s x; foldM body s' l'
  end.

(** ** Dictionaries that are iterated *)

(** A dict keyed by arcs, given by the assignments [d[a] = v] that made
    it, in the order they were made.  Python keeps a key at the place of
    its first assignment and keeps the value of its last. *)
Record pydict (V : Type) := PyDict { insertions : list (arc * V) }.
Arguments PyDict {V} _.
Arguments insertions {V} _.

(** [d[a] = v] on the entries of a dict. *)
Fixpoint set_entry {V} (a : arc) (v : V) (es : list (arc * V))
  : list (arc * V) :=
  match es with
  | [] => [(a, v)]
  | bw :: es' =>
      if decide (bw.1 = a) then (a, v) :: es' else bw :: set_entry a v es'
  end.

(** [d.items()]: the entries in the order Python iterates them. *)
Definition entries {V} (d : pydict V) : list (arc * V) :=
  foldl (λ es kv, set_entry kv.1 kv.2 es) [] (insertions d).

(** [for (i, j) in d]. *)
Definition keys {V} (d : pydict V) : list arc := (entries d).*1.

Fixpoint assoc {V} (a : arc) (es : list (arc * V)) : option V :=
  match es with
  | [] => None
  | bw :: es' => if decide (bw.1 = a) then Some bw.2 else assoc a es'
  end.

#[global] Instance pydict_lookup {V} : Lookup arc V (pydict V) :=
  λ a d, assoc a (entries d).
#[global] Instance pydict_insert {V} : Insert arc V (pydict V) :=
  λ a v d, PyDict (insertions d ++ [(a, v)]).
#[global] Instance pydict_empty {V} : Empty (pydict V) := PyDict [].

(** ** The LP objects of the modelling library *)

Inductive LpCategory := LpContinuous | LpInteger | LpBinary.
Inductive LpSense := LpMinimize | LpMaximize.
Inductive LpConstraintSense := LpConstraintLE | LpConstraintEQ | LpConstraintGE.
Inductive LpStatus :=
| LpStatusNotSolved | LpStatusOptimal | LpStatusInfeasible
| LpStatusUnbounded | LpStatusUndefined.

(** The library replaces each of the characters [-+[] ->/] of a name by
    an underscore. *)
Definition illegal_chars : list ascii :=
  String.list_ascii_of_string "-+[] ->/".

Definition sanitise_char (c : ascii) : ascii :=
  if existsb (Ascii.eqb c) illegal_chars then "_"%char else c.

Fixpoint sanitise (s : string) : string :=
  match s with
  | EmptyString => EmptyString
  | String c s' => String (sanitise_char c) (sanitise s')
  end.

(** One Python object per variable: [var_id] stands for the identity of
    the object, the key of [cost] it was made for, or [None] for the one
    variable the library makes itself; [var_name] is the name it carries. *)
Record LpVariable := {
  var_id : option arc;
  var_name : string;
  lowBound : option Q;
  upBound : option Q;
  cat : LpCategory
}.

(** [pulp.LpVariable(name, lowBound, upBound, cat)] *)
Definition LpVariable_new (id : option arc) (name : string)
    (low up : option Q) (c : LpCategory) : LpVariable :=
  {| var_id := id; var_name := sanitise name;
     lowBound := low; upBound := up; cat := c |}.

(** A formal sum of coefficient-variable products plus a constant, kept in
    the order the source writes it. *)
Record LpAffineExpression := {
  terms : list (LpVariable * Q);
  constant : Q
}.

Record LpConstraint := {
  c_lhs : LpAffineExpression;
  c_sense : LpConstraintSense;
  c_rhs : LpAffineExpression
}.

Record LpProblem := {
  p_name : string;
  p_sense : LpSense;
  objective : LpAffineExpression;
  objective_name : string;
  constraints : list (string * LpConstraint)
}.

Definition LpProblem_new (name : string) (sense : LpSense) : LpProblem :=
  {| p_name := name; p_sense := sense;
     objective := {| terms := []; constant := 0 |};
     objective_name := EmptyString;
     constraints := [] |}.

(** [problem += expr, name] *)
Definition set_objective (p : LpProblem) (e : LpAffineExpression) (n : string)
  : LpProblem :=
  {| p_name := p_name p; p_sense := p_sense p;
     objective := e; objective_name := sanitise n;
     constraints := constraints p |}.

(** [problem.objective = e], the name kept. *)
Definition with_objective (p : LpProblem) (e : LpAffineExpression) : LpProblem :=
  {| p_name := p_name p; p_sense := p_sense p;
     objective := e; objective_name := objective_name p;
     constraints := constraints p |}.

(** Several rows appended to the constraints. *)
Definition add_rows (p : LpProblem) (rs : list (string * LpConstraint))
  : LpProblem :=
  {| p_name := p_name p; p_sense := p_sense p;
     objective := objective p; objective_name := objective_name p;
     constraints := constraints p ++ rs |}.

Definition overlapping (n : string) : exn :=
  PulpError ("overlapping constraint names: " ++ n).

(** [problem += constraint, name]: the constraint goes under its name as
    the library rewrites it, unless that name is taken. *)
Definition add_constraint (p : LpProblem) (c : LpConstraint) (n : string)
  : result LpProblem :=
  if decide (sanitise n ∈ (constraints p).*1)
  then Raise (overlapping (sanitise n))
  else Ok (add_rows p [(sanitise n, c)]).

Definition of_var (v : LpVariable) : LpAffineExpression :=
  {| terms := [(v, 1%Q)]; constant := 0 |}.

Definition of_const (q : Q) : LpAffineExpression :=
  {| terms := []; constant := q |}.

(** [c * v]: the empty expression when [c] is the number 0. *)
Definition scale (c : Q) (v : LpVariable) : LpAffineExpression :=
  if Qeq_bool c 0 then {| terms := []; constant := 0 |}
  else {| terms := [(v, c)]; constant := 0 |}.

(** [e1 + e2] and [e1 - e2] *)
Definition expr_add (e1 e2 : LpAffineExpression) : LpAffineExpression :=
  {| terms := terms e1 ++ terms e2;
     constant := (constant e1 + constant e2)%Q |}.

Definition expr_sub (e1 e2 : LpAffineExpression) : LpAffineExpression :=
  {| terms := terms e1 ++ ((λ t, (t.1, - t.2)%Q) <$> terms e2);
     constant := (constant e1 - constant e2)%Q |}.

(** [pulp.lpSum] *)
Definition lpSum (es : list LpAffineExpression) : LpAffineExpression :=
  {| terms := concat (terms <$> es);
     constant := foldr Qplus 0%Q (constant <$> es) |}.

Definition le_constraint (l r : LpAffineExpression) : LpConstraint :=
  {| c_lhs := l; c_sense := LpConstraintLE; c_rhs := r |}.
Definition ge_constraint (l r : LpAffineExpression) : LpConstraint :=
  {| c_lhs := l; c_sense := LpConstraintGE; c_rhs := r |}.
Definition eq_constraint (l r : LpAffineExpression) : LpConstraint :=
  {| c_lhs := l; c_sense := LpConstraintEQ; c_rhs := r |}.

(** ** Lines 23-46: the model *)

(** [pulp.LpVariable(f"flow_{i}_{j}", lowBound=0, cat='Continuous')] *)
Definition flow_var (a : arc) : LpVariable :=
  LpVariable_new (Some a) ("flow_" ++ a.1 ++ "_" ++ a.2)
    (Some 0%Q) None LpContinuous.

(** [{(i, j): LpVariable(...) for (i, j) in cost}] *)
Definition flow_dict (cost : pydict Q) : pydict LpVariable :=
  PyDict ((λ a, (a, flow_var a)) <$> keys cost).

Definition supply_body (flow : pydict LpVariable) (supply : gmap node Q)
    (transshipments : list node) (problem : LpProblem) (i : node)
  : result LpProblem :=
  out ← mapM (λ j, getitem KeyArc flow (i, j)) transshipments;
  s ← getitem KeyStr supply i;
  add_constraint problem
    (le_constraint (lpSum (of_var <$> out)) (of_const s))
    ("Supply_" ++ i).

Definition demand_body (flow : pydict LpVariable) (demand : gmap node Q)
    (transshipments : list node) (problem : LpProblem) (j : node)
  : result LpProblem :=
  inc ← mapM (λ i, getitem KeyArc flow (i, j)) transshipments;
  d ← getitem KeyStr demand j;
  add_constraint problem
    (ge_constraint (lpSum (of_var <$> inc)) (of_const d))
    ("Demand_" ++ j).

Definition transshipment_body (flow : pydict LpVariable)
    (sources destinations : list node) (problem : LpProblem) (k : node)
  : result LpProblem :=
  inc ← mapM (λ i, getitem KeyArc flow (i, k)) sources;
  out ← mapM (λ j, getitem KeyArc flow (k, j)) destinations;
  add_constraint problem
    (eq_constraint (lpSum (of_var <$> inc)) (lpSum (of_var <$> out)))
    ("Transshipment_" ++ k).

Definition objective_term (cost : pydict Q) (flow : pydict LpVariable)
    (a : arc) : result LpAffineExpression :=
  c ← getitem KeyArc cost a;
  v ← getitem KeyArc flow a;
  mret (scale c v).

(** Everything up to, and not including, [problem.solve()]. *)
Definition build_problem (nodes : gmap string (list node))
    (supply demand : gmap node Q) (cost : pydict Q)
  : result (LpProblem * pydict LpVariable) :=
  sources ← getitem KeyStr nodes "sources";
  transshipments ← getitem KeyStr nodes "transshipments";
  destinations ← getitem KeyStr nodes "destinations";
  let problem := LpProblem_new "Transshipment_Problem" LpMinimize in
  let flow := flow_dict cost in
  ts ← mapM (objective_term cost flow) (keys cost);
  let problem := set_objective problem (lpSum ts) "Total Cost" in
  problem ← foldM (supply_body flow supply transshipments) problem sources;
  problem ← foldM (demand_body flow demand transshipments) problem destinations;
  problem ← foldM (transshipment_body flow sources destinations) problem
              transshipments;
  mret (problem, flow).

(** ** Lines 48-56: solving and reading the solution back *)

(** The [varValue] of the variable object of every key; [None] is
    Python's [None]. *)
Definition assignment := arc → option Q.

(** [v.varValue]; the library never stores a value in its own variable. *)
Definition varValue (vals : assignment) (v : LpVariable) : option Q :=
  match var_id v with
  | Some a => vals a
  | None => None
  end.

Definition expr_vars (e : LpAffineExpression) : list LpVariable := (terms e).*1.

Definition constraint_vars (c : LpConstraint) : list LpVariable :=
  expr_vars (c_lhs c) ++ expr_vars (c_rhs c).

(** The library keeps each variable object once. *)
Fixpoint add_variables (seen vs : list LpVariable) : list LpVariable :=
  match vs with
  | [] => seen
  | v :: vs' =>
      if decide (var_id v ∈ var_id <$> seen)
      then add_variables seen vs'
      else add_variables (seen ++ [v]) vs'
  end.

Fixpoint insert_by_name (v : LpVariable) (l : list LpVariable) : list LpVariable :=
  match l with
  | [] => [v]
  | w :: l' =>
      if String.leb (var_name v) (var_name w)
      then v :: w :: l'
      else w :: insert_by_name v l'
  end.

Definition sort_by_name (l : list LpVariable) : list LpVariable :=
  foldr insert_by_name [] l.

(** The variables in the order the library meets them: those of each
    constraint as it is added, those of the objective when the variables
    are first asked for. *)
Definition all_vars (p : LpProblem) : list LpVariable :=
  concat ((λ nc, constraint_vars nc.2) <$> constraints p)
    ++ expr_vars (objective p).

(** [problem.variables()]: the variables of the constraints and of the
    objective, sorted by name. *)
Definition variables (p : LpProblem) : list LpVariable :=
  sort_by_name (add_variables [] (all_vars p)).

(** The library's own variable, fixed at 0. *)
Definition dummyVar : LpVariable :=
  LpVariable_new None "__dummy" (Some 0%Q) (Some 0%Q) LpContinuous.

(** Before the solver runs, an objective without a variable gets
    [__dummy]; the flag says whether it did. *)
Definition fixObjective (p : LpProblem) : LpProblem * bool :=
  match terms (objective p) with
  | [] => (with_objective p (expr_add (objective p) (of_var dummyVar)), true)
  | _ :: _ => (p, false)
  end.

(** After the solver has run, [__dummy] is subtracted again: it stays in
    the objective, with coefficients that cancel. *)
Definition restoreObjective (p : LpProblem) (dummy : bool) : LpProblem :=
  if dummy
  then with_objective p (expr_sub (objective p) (of_var dummyVar))
  else p.

(** The problem the solver is handed, and the problem as
    [problem.solve()] leaves it. *)
Definition posed (p : LpProblem) : LpProblem := (fixObjective p).1.

Definition solved (p : LpProblem) : LpProblem :=
  restoreObjective (fixObjective p).1 (fixObjective p).2.

(** The key [a] has its variable among those of the problem. *)
Definition in_problem (p : LpProblem) (a : arc) : bool :=
  bool_decide (Some a ∈ var_id <$> variables p).

(** The values the variable objects hold once the solver's values are
    stored: a variable of the problem holds what the solver gave it, a
    variable the problem does not have was never handed to the solver. *)
Definition stored (p : LpProblem) (vals : assignment) : assignment :=
  λ a, if in_problem p a then vals a else None.

(** [pulp.value(e)]: [None] as soon as one variable has no value. *)
Definition value (vals : assignment) (e : LpAffineExpression) : option Q :=
  foldl (λ acc t, s ← acc; x ← varValue vals t.1; Some (s + x * t.2)%Q)
        (Some (constant e)) (terms e).

(** The two columns ['Variable'] and ['Value'] of [results_df]. *)
Definition DataFrame := list (string * option Q).

(** ** The chart routines *)

Record DiGraph := {
  g_nodes : list node;
  g_edges : list (arc * (Q * option Q))
}.

Definition pos : list (node * (Z * Z)) :=
  [("F1", (0, 3)); ("F2", (0, 2)); ("F3", (0, 1)); ("F4", (0, 0));
   ("F5", (0, -1));
   ("XD1", (1, 1)); ("XD2", (1, -1));
   ("DC1", (2, 2)); ("DC2", (2, 1)); ("DC3", (2, 0)); ("DC4", (2, -1));
   ("DC5", (2, -2))]%Z.

(** One bar series: its legend label and its (index, height) entries, in
    the order of the rows. *)
Definition series := (node * list (node * option Q))%type.

(** The two external libraries: [solve] is the solver behind
    [problem.solve()], which reports a status and gives values to
    variables, or raises; the others are the renderers of the graph and
    chart libraries, and [format_1f] is [f"{x:.1f}"] on a number. *)
Record Libraries := {
  solve : LpProblem → result (LpStatus * assignment);
  draw_networkx : DiGraph → list (node * (Z * Z)) → result unit;
  draw_networkx_edge_labels :
    DiGraph → list (node * (Z * Z)) → list (arc * string) → result unit;
  stacked_bars : list node → list series → string → result unit;
  show : result unit;
  format_1f : Q → string
}.

Section Program.

Variable lib : Libraries.

(** [problem.solve()]: the status, the values the variable objects hold
    afterwards, and the problem as it is left. *)
Definition problem_solve (p : LpProblem)
  : result (LpStatus * assignment * LpProblem) :=
  let '(p1, dummy) := fixObjective p in
  '(status, vals) ← solve lib p1;
  mret (status, stored p1 vals, restoreObjective p1 dummy).

Definition edge_label (flow : pydict LpVariable) (vals : assignment)
    (a : arc) : result (arc * string) :=
  v ← getitem KeyArc flow a;
  match varValue vals v with
  | Some x => mret (a, format_1f lib x)
  | None => Raise format_error
  end.

Definition graph_edge (cost : pydict Q) (flow : pydict LpVariable)
    (vals : assignment) (a : arc) : result (arc * (Q * option Q)) :=
  c ← getitem KeyArc cost a;
  v ← getitem KeyArc flow a;
  mret (a, (c, varValue vals v)).

(** [draw_networkx] stands for the three calls that draw the nodes, the
    edges and the node labels; [show] for the title and [plt.show()]. *)
Definition plot_transshipment_network (nodes : gmap string (list node))
    (supply demand : gmap node Q) (cost : pydict Q)
    (flow : pydict LpVariable) (vals : assignment) : result unit :=
  sources ← getitem KeyStr nodes "sources";
  transshipments ← getitem KeyStr nodes "transshipments";
  destinations ← getitem KeyStr nodes "destinations";
  edges ← mapM (graph_edge cost flow vals) (keys cost);
  let G := {| g_nodes := sources ++ transshipments ++ destinations;
              g_edges := edges |} in
  draw_networkx lib G pos;;
  edge_labels ← mapM (edge_label flow vals) (keys cost);
  draw_networkx_edge_labels lib G pos edge_labels;;
  show lib.

(** The series of one chart: for each label in [froms], the flows that
    leave it, indexed by their ['To'] end. *)
Definition bar_series (rows : list (arc * option Q)) (froms : list node)
  : list series :=
  (λ s, (s, (λ r, (r.1.2, r.2)) <$> filter (λ r, r.1.1 = s) rows)) <$> froms.

(** [stacked_bars] stands for the loop of [ax.bar] calls of one chart
    with its running [bottom], the axis labels and the legend. *)
Definition plot_stacked_bar_chart (flow : pydict LpVariable)
    (vals : assignment) (nodes : gmap string (list node)) : result unit :=
  sources ← getitem KeyStr nodes "sources";
  transshipments ← getitem KeyStr nodes "transshipments";
  destinations ← getitem KeyStr nodes "destinations";
  let flow_df := (λ kv, (kv.1, varValue vals kv.2)) <$> entries flow in
  let flow_sources_to_transshipments :=
    filter (λ r, r.1.1 ∈ sources) flow_df in
  let flow_transshipments_to_destinations :=
    filter (λ r, r.1.1 ∈ transshipments) flow_df in
  stacked_bars lib transshipments
    (bar_series flow_sources_to_transshipments sources)
    "Flow from Sources to Transshipment Nodes";;
  show lib;;
  stacked_bars lib destinations
    (bar_series flow_transshipments_to_destinations transshipments)
    "Flow from Transshipment Nodes to Destinations";;
  show lib.

(** ** The entry point *)

Definition results_of (problem : LpProblem) (vals : assignment) : DataFrame :=
  (λ v, (var_name v, varValue vals v)) <$> variables problem.

Definition solve_transshipment_problem (nodes : gmap string (list node))
    (supply demand : gmap node Q) (cost : pydict Q)
    (plot_network plot_bar_chart : bool)
  : result (DataFrame * option Q) :=
  '(problem, flow) ← build_problem nodes supply demand cost;
  '(status, vals, problem) ← problem_solve problem;
  let results_df := results_of problem vals in
  let total_cost := value vals (objective problem) in
  (if plot_network
   then plot_transshipment_network nodes supply demand cost flow vals
   else mret ());;
  (if plot_bar_chart
   then plot_stacked_bar_chart flow vals nodes
   else mret ());;
  mret (results_df, total_cost).

End Program.

(** ** What a linear program means *)

Definition Qsum (l : list Q) : Q := foldr Qplus 0%Q l.

(** The value a point gives a variable; the library's own variable is
    fixed at 0. *)
Definition at_var (σ : arc → Q) (v : LpVariable) : Q :=
  match var_id v with
  | Some a => σ a
  | None => 0%Q
  end.

(** The value of an expression at a point, accumulated the way
    [value] does. *)
Definition eval (σ : arc → Q) (e : LpAffineExpression) : Q :=
  foldl (λ s t, s + at_var σ t.1 * t.2)%Q (constant e) (terms e).

Definition term_value (σ : arc → Q) (t : LpVariable * Q) : Q :=
  (at_var σ t.1 * t.2)%Q.

Definition holds (σ : arc → Q) (c : LpConstraint) : Prop :=
  match c_sense c with
  | LpConstraintLE => (eval σ (c_lhs c) <= eval σ (c_rhs c))%Q
  | LpConstraintEQ => (eval σ (c_lhs c) == eval σ (c_rhs c))%Q
  | LpConstraintGE => (eval σ (c_rhs c) <= eval σ (c_lhs c))%Q
  end.

Definition within_bounds (σ : arc → Q) (v : LpVariable) : Prop :=
  (∀ l, lowBound v = Some l → (l <= at_var σ v)%Q) ∧
  (∀ u, upBound v = Some u → (at_var σ v <= u)%Q).

Definition lp_feasible (p : LpProblem) (σ : arc → Q) : Prop :=
  Forall (λ nc, holds σ nc.2) (constraints p) ∧
  Forall (within_bounds σ) (variables p).

Definition no_worse (s : LpSense) (x y : Q) : Prop :=
  match s with
  | LpMinimize => (x <= y)%Q
  | LpMaximize => (y <= x)%Q
  end.

Definition lp_optimal (p : LpProblem) (σ : arc → Q) : Prop :=
  lp_feasible p σ ∧
  ∀ σ', lp_feasible p σ' →
        no_worse (p_sense p) (eval σ (objective p)) (eval σ' (objective p)).

(** The numbers behind an assignment; a missing value reads as 0. *)
Definition total (vals : assignment) : arc → Q := λ a, default 0%Q (vals a).

(** What status [Optimal] promises: every variable of a key that the
    problem has is given a value, and these values are an optimal point of
    the problem. *)
Definition reports_optimum (p : LpProblem) (vals : assignment) : Prop :=
  (∀ a, in_problem p a = true → is_Some (vals a)) ∧
  lp_optimal p (total vals).

(** The contract of an LP solver: [Optimal] comes with an optimum, and
    [Infeasible] only when the problem has no feasible point. *)
Definition solver_contract (lib : Libraries) : Prop :=
  ∀ p st vals, solve lib p = Ok (st, vals) →
    (st = LpStatusOptimal → reports_optimum p vals) ∧
    (st = LpStatusInfeasible → ∀ σ, ¬ lp_feasible p σ).

(** ** What the transshipment problem asks of a flow *)

Section Flows.

Variables sources transshipments destinations : list node.
Variables supply demand : gmap node Q.
Variable cost : pydict Q.

(** Total flow from [i] to the nodes of [tos]. *)
Definition outflow (f : arc → Q) (i : node) (tos : list node) : Q :=
  Qsum ((λ j, f (i, j)) <$> tos).

(** Total flow into [j] from the nodes of [froms]. *)
Definition inflow (f : arc → Q) (froms : list node) (j : node) : Q :=
  Qsum ((λ i, f (i, j)) <$> froms).

Definition nonnegative (f : arc → Q) : Prop :=
  ∀ a, is_Some (cost !! a) → (0 <= f a)%Q.

Definition supply_limits (f : arc → Q) : Prop :=
  ∀ i s, i ∈ sources → supply !! i = Some s →
         (outflow f i transshipments <= s)%Q.

Definition demand_met (f : arc → Q) : Prop :=
  ∀ j d, j ∈ destinations → demand !! j = Some d →
         (d <= inflow f transshipments j)%Q.

Definition conserved (f : arc → Q) : Prop :=
  ∀ k, k ∈ transshipments →
       (inflow f sources k == outflow f k destinations)%Q.

Definition feasible_flow (f : arc → Q) : Prop :=
  nonnegative f ∧ supply_limits f ∧ demand_met f ∧ conserved f.

(** The sum over the keys of [cost] of [cost[i,j] * flow[i,j]]. *)
Definition flow_cost (f : arc → Q) : Q :=
  Qsum ((λ ac, ac.2 * f ac.1)%Q <$> entries cost).

Definition minimum_cost (c : Q) : Prop :=
  (∃ f, feasible_flow f ∧ (flow_cost f == c)%Q) ∧
  ∀ g, feasible_flow g → (c <= flow_cost g)%Q.

(** Every entry the three loops read is there. *)
Definition complete : Prop :=
  (∀ i k, i ∈ sources → k ∈ transshipments → is_Some (cost !! (i, k))) ∧
  (∀ k j, k ∈ transshipments → j ∈ destinations → is_Some (cost !! (k, j))) ∧
  (∀ i, i ∈ sources → is_Some (supply !! i)) ∧
  (∀ j, j ∈ destinations → is_Some (demand !! j)).

Definition missing_entry : Prop :=
  (∃ i k, i ∈ sources ∧ k ∈ transshipments ∧ cost !! (i, k) = None) ∨
  (∃ k j, k ∈ transshipments ∧ j ∈ destinations ∧ cost !! (k, j) = None) ∨
  (∃ i, i ∈ sources ∧ supply !! i = None) ∨
  (∃ j, j ∈ destinations ∧ demand !! j = None).

(** No two nodes of one list give their constraints the same name. *)
Definition distinct_names : Prop :=
  NoDup (sanitise <$> sources) ∧
  NoDup (sanitise <$> destinations) ∧
  NoDup (sanitise <$> transshipments).

(** What the three loops need to run through. *)
Definition accepted : Prop := complete ∧ distinct_names.

(** An arc of the three-tier network. *)
Definition three_tier (a : arc) : Prop :=
  (a.1 ∈ sources ∧ a.2 ∈ transshipments) ∨
  (a.1 ∈ transshipments ∧ a.2 ∈ destinations).

(** A key of [cost] whose variable the problem has: it is an arc of the
    three tiers, or its cost is not 0. *)
Definition in_model (a : arc) : Prop :=
  three_tier a ∨ ∃ c, cost !! a = Some c ∧ ¬ (c == 0)%Q.

(** The rows the three loops add, in closed form. *)
Definition supply_row (i : node) : string * LpConstraint :=
  (sanitise ("Supply_" ++ i),
   le_constraint
     (lpSum (of_var <$> ((λ j, flow_var (i, j)) <$> transshipments)))
     (of_const (default 0%Q (supply !! i)))).

Definition demand_row (j : node) : string * LpConstraint :=
  (sanitise ("Demand_" ++ j),
   ge_constraint
     (lpSum (of_var <$> ((λ i, flow_var (i, j)) <$> transshipments)))
     (of_const (default 0%Q (demand !! j)))).

Definition transshipment_row (k : node) : string * LpConstraint :=
  (sanitise ("Transshipment_" ++ k),
   eq_constraint
     (lpSum (of_var <$> ((λ i, flow_var (i, k)) <$> sources)))
     (lpSum (of_var <$> ((λ j, flow_var (k, j)) <$> destinations)))).

(** The model of lines 28-46 when the loops run through. *)
Definition model : LpProblem :=
  {| p_name := "Transshipment_Problem";
     p_sense := LpMinimize;
     objective :=
       lpSum ((λ ac, scale ac.2 (flow_var ac.1)) <$> entries cost);
     objective_name := "Total_Cost";
     constraints :=
       (supply_row <$> sources) ++ (demand_row <$> destinations)
         ++ (transshipment_row <$> transshipments) |}.

End Flows.

(** The node lists a [nodes] dictionary holds. *)
Definition roles (nodes : gmap string (list node))
    (sources transshipments destinations : list node) : Prop :=
  nodes !! "sources" = Some sources ∧
  nodes !! "transshipments" = Some transshipments ∧
  nodes !! "destinations" = Some destinations.


(** [results_df] has, for the variable of every key that the problem has,
    the row of its name and the value the flow [f] gives the key. *)
Definition recorded (df : DataFrame) (p : LpProblem) (f : arc → Q) : Prop :=
  ∀ a, in_problem p a = true → (var_name (flow_var a), Some (f a)) ∈ df.

(** The error [e] comes out of one of the renderers. *)
Definition raised_by_renderer (lib : Libraries) (e : exn) : Prop :=
  (∃ G ps, draw_networkx lib G ps = Raise e) ∨
  (∃ G ps ls, draw_networkx_edge_labels lib G ps ls = Raise e) ∨
  (∃ xs ss t, stacked_bars lib xs ss t = Raise e) ∨
  show lib = Raise e.

(** The pair the call hands back once the solver has given [vals] on the
    problem [p] that was built. *)
Definition returned (p : LpProblem) (vals : assignment)
  : DataFrame * option Q :=
  (results_of (solved p) (stored (posed p) vals),
   value (stored (posed p) vals) (objective (solved p))).


(** ** Deciding equality of problems *)

#[global] Instance Q_eq_dec : EqDecision Q.
Proof. solve_decision. Defined.
#[global] Instance LpCategory_eq_dec : EqDecision LpCategory.
Proof. solve_decision. Defined.
#[global] Instance LpSense_eq_dec : EqDecision LpSense.
Proof. solve_decision. Defined.
#[global] Instance LpConstraintSense_eq_dec : EqDecision LpConstraintSense.
Proof. solve_decision. Defined.
#[global] Instance LpVariable_eq_dec : EqDecision LpVariable.
Proof. solve_decision. Defined.
#[global] Instance LpAffineExpression_eq_dec : EqDecision LpAffineExpression.
Proof. solve_decision. Defined.
#[global] Instance LpConstraint_eq_dec : EqDecision LpConstraint.
Proof. solve_decision. Defined.
#[global] Instance LpProblem_eq_dec : EqDecision LpProblem.
Proof. solve_decision. Defined.

(** ** A small network: one plant, one cross-dock, one distribution centre *)

Definition nodes_small : gmap string (list node) :=
  {[ "sources" := ["F1"];
     "transshipments" := ["XD1"];
     "destinations" := ["DC1"] ]}.

Definition cost_small : pydict Q :=
  PyDict [(("F1", "XD1"), 2%Q); (("XD1", "DC1"), 4%Q)].

(** Supply 5 against demand 3: feasible. *)
Definition supply_ample : gmap node Q := {[ "F1" := 5%Q ]}.
Definition demand_small : gmap node Q := {[ "DC1" := 3%Q ]}.

(** Supply 1 against demand 2: total supply strictly below total demand. *)
Definition supply_short : gmap node Q := {[ "F1" := 1%Q ]}.
Definition demand_large : gmap node Q := {[ "DC1" := 2%Q ]}.

(** The flow that ships [x] into the cross-dock and [y] out of it. *)
Definition shipped (x y : Q) : assignment := λ a,
  if decide (a = ("F1", "XD1")) then Some x
  else if decide (a = ("XD1", "DC1")) then Some y
  else None.

Definition p_feasible : LpProblem :=
  model ["F1"] ["XD1"] ["DC1"] supply_ample demand_small cost_small.

Definition p_infeasible : LpProblem :=
  model ["F1"] ["XD1"] ["DC1"] supply_short demand_large cost_small.

(** A solver that knows one problem, answers it with [st] and [vals], and
    refuses every other problem; the renderers draw without complaint. *)
Definition oracle (p0 : LpProblem) (st : LpStatus) (vals : assignment)
  : Libraries :=
  {| solve := λ p,
       if decide (p = p0) then Ok (st, vals)
       else Raise (LibraryError SolverLib "no solver for this problem");
     draw_networkx := λ _ _, Ok ();
     draw_networkx_edge_labels := λ _ _ _, Ok ();
     stacked_bars := λ _ _ _, Ok ();
     show := Ok ();
     format_1f := λ _, EmptyString |}.

(** It solves the feasible instance to optimality: ship 3 and 3. *)
Definition lib_optimal : Libraries :=
  oracle p_feasible LpStatusOptimal (shipped 3 3).

(** It reports the short-supply instance infeasible and leaves [x] and [y]
    in the two variables. *)
Definition lib_stalled (x y : Q) : Libraries :=
  oracle p_infeasible LpStatusInfeasible (shipped x y).

(** The small network with a direct plant-to-centre arc on top. *)
Definition cost_direct : pydict Q := <[("F1", "DC1") := 7%Q]> cost_small.

(** The same, the direct arc free of charge. *)
Definition cost_free : pydict Q := <[("F1", "DC1") := 0%Q]> cost_small.

Definition p_free : LpProblem :=
  model ["F1"] ["XD1"] ["DC1"] supply_ample demand_small cost_free.

(** It solves the instance with the free direct arc to optimality. *)
Definition lib_free : Libraries :=
  oracle p_free LpStatusOptimal (shipped 3 3).



(** The small network with a free arc between two nodes of no list. *)
Definition cost_stray : pydict Q := <[("X", "Y") := 0%Q]> cost_small.

(** The plant listed twice. *)
Definition nodes_twice : gmap string (list node) :=
  {[ "sources" := ["F1"; "F1"];
     "transshipments" := ["XD1"];
     "destinations" := ["DC1"] ]}.

(** Libraries that never raise: the solver gives up on every problem and
    leaves no values, the renderers draw without complaint. *)
Definition lib_silent : Libraries :=
  {| solve := λ _, Ok (LpStatusNotSolved, λ _, None);
     draw_networkx := λ _ _, Ok ();
     draw_networkx_edge_labels := λ _ _ _, Ok ();
     stacked_bars := λ _ _ _, Ok ();
     show := Ok ();
     format_1f := λ _, EmptyString |}.

(** The table the call returns on the small network. *)
Definition table (x y : option Q) : DataFrame :=
  [("flow_F1_XD1", x); ("flow_XD1_DC1", y)].

(** ** What the further properties speak of *)

(** The supply of all sources and the demand of all destinations. *)
Definition total_supply (sources : list node) (supply : gmap node Q) : Q :=
  Qsum ((λ i, default 0%Q (supply !! i)) <$> sources).

Definition total_demand (destinations : list node) (demand : gmap node Q) : Q :=
  Qsum ((λ j, default 0%Q (demand !! j)) <$> destinations).

(** [flow[i, j].varValue], when [flow] has the key. *)
Definition flow_value (flow : pydict LpVariable) (vals : assignment)
    (a : arc) : option Q :=
  flow !! a ≫= varValue vals.

(** The graph the network plot hands to the renderer: the nodes of the
    three lists, and one edge per key of [cost] with its cost as weight and
    its flow value as capacity. *)
Definition network_graph (S T D : list node) (cost : pydict Q)
    (flow : pydict LpVariable) (vals : assignment) : DiGraph :=
  {| g_nodes := S ++ T ++ D;
     g_edges := (λ ac, (ac.1, (ac.2, flow_value flow vals ac.1)))
                  <$> entries cost |}.

(** Its edge labels: the flow values to one decimal place. *)
Definition network_labels (lib : Libraries) (cost : pydict Q)
    (flow : pydict LpVariable) (vals : assignment) : list (arc * string) :=
  (λ ac, (ac.1, format_1f lib (default 0%Q (flow_value flow vals ac.1))))
    <$> entries cost.

(** The rows of [flow_df]: one per entry of [flow], in its order. *)
Definition flow_rows (flow : pydict LpVariable) (vals : assignment)
  : list (arc * option Q) :=
  (λ kv, (kv.1, varValue vals kv.2)) <$> entries flow.

(** The flows that leave [s], by their ['To'] end. *)
Definition leaving (rows : list (arc * option Q)) (s : node)
  : list (node * option Q) :=
  (λ r, (r.1.2, r.2)) <$> filter (λ r, r.1.1 = s) rows.

(** The flow [f] with one more unit on the arc [a]. *)
Definition one_more (a : arc) (f : arc → Q) : arc → Q :=
  λ b, if decide (b = a) then (f a + 1)%Q else f b.

(** A name without any of the characters the library replaces. *)
Definition legal_name (s : string) : Prop :=
  Forall (λ c, c ∉ illegal_chars) (String.list_ascii_of_string s).

(** A plant and a centre with no cross-dock between them. *)
Definition nodes_no_hub : gmap string (list node) :=
  {[ "sources" := ["F1"];
     "transshipments" := [];
     "destinations" := ["DC1"] ]}.

Definition p_no_hub : LpProblem :=
  model ["F1"] [] ["DC1"] supply_ample demand_small ∅.

(** It reports that instance infeasible; the problem has no variable of a
    key to give a value to. *)
Definition lib_no_hub : Libraries :=
  oracle (posed p_no_hub) LpStatusInfeasible (λ _, None).

(** [supply_ample] with an entry for a node that is no source. *)
Definition supply_more : gmap node Q := <["ZZ" := 9%Q]> supply_ample.

(** The small network with a direct arc that pays 1 per unit. *)
Definition cost_rebate : pydict Q := <[("F1", "DC1") := (-1)%Q]> cost_small.

(** Nothing is asked for. *)
Definition demand_none : gmap node Q := {[ "DC1" := 0%Q ]}.

(** * Proofs *)

Ltac evaluate := vm_compute; reflexivity.

(** ** The error monad *)

Lemma bind_Ok {A B} (m : result A) (f : A → result B) b :
  m ≫= f = Ok b ↔ ∃ a, m = Ok a ∧ f a = Ok b.
Proof.
  destruct m as [a|e]; simpl; split.
  - eauto.
  - by intros (a' & [= <-] & ?).
  - done.
  - by intros (a' & ? & ?).
Qed.

Lemma bind_Raise {A B} (m : result A) (f : A → result B) e :
  m ≫= f = Raise e ↔ m = Raise e ∨ ∃ a, m = Ok a ∧ f a = Raise e.
Proof.
  destruct m as [a|e']; simpl; split.
  - eauto.
  - intros [?|(a' & [= <-] & ?)]; done.
  - intros [= <-]; eauto.
  - intros [[= <-]|(a' & ? & ?)]; done.
Qed.

Lemma getitem_Ok {K V M : Type} `{Lookup K V M} (mk : K → pykey) (d : M) k v :
  getitem mk d k = Ok v ↔ d !! k = Some v.
Proof. unfold getitem. destruct (d !! k); split; congruence. Qed.

Lemma getitem_Raise {K V M : Type} `{Lookup K V M} (mk : K → pykey) (d : M)
    k e :
  getitem mk d k = Raise e ↔ d !! k = None ∧ e = KeyError (mk k).
Proof.
  unfold getitem. destruct (d !! k); split; try congruence.
  - by intros [? _].
  - by intros [= <-].
  - by intros [_ ->].
Qed.

Lemma mapM_Ok {A B} (f : A → result B) l k :
  mapM f l = Ok k ↔ Forall2 (λ x y, f x = Ok y) l k.
Proof.
  revert k. induction l as [|x l IH]; intros k; simpl.
  - split; [intros [= <-]; constructor | by inversion 1].
  - rewrite bind_Ok. split.
    + intros (y & Hy & Hk). apply bind_Ok in Hk as (k' & Hk' & [= <-]).
      constructor; [done | by apply IH].
    + inversion 1 as [|? y ? k' Hy Hk']; subst.
      exists y. split; [done|]. apply IH in Hk'. by rewrite Hk'.
Qed.

Lemma mapM_Ok_fmap {A B} (f : A → result B) (g : A → B) l :
  (∀ x, x ∈ l → f x = Ok (g x)) → mapM f l = Ok (g <$> l).
Proof.
  intros Hf. apply mapM_Ok. induction l as [|x l IH]; simpl; constructor.
  - apply Hf. by left.
  - apply IH. intros y Hy. apply Hf. by right.
Qed.

Lemma mapM_Raise {A B} (f : A → result B) l e :
  mapM f l = Raise e → ∃ x, x ∈ l ∧ f x = Raise e.
Proof.
  induction l as [|x l IH]; simpl; [done|].
  rewrite bind_Raise. intros [Hx|(y & Hy & Hk)].
  - exists x. split; [by left | done].
  - apply bind_Raise in Hk as [Hk|(k' & _ & ?)]; [|done].
    destruct (IH Hk) as (z & ? & ?). exists z. split; [by right | done].
Qed.

Lemma foldM_Raise {A S} (body : S → A → result S) s l e :
  foldM body s l = Raise e → ∃ s' x, x ∈ l ∧ body s' x = Raise e.
Proof.
  revert s. induction l as [|x l IH]; intros s; simpl; [done|].
  rewrite bind_Raise. intros [Hx|(s' & _ & Hl)].
  - exists s, x. split; [by left | done].
  - destruct (IH _ Hl) as (s'' & y & ? & ?). exists s'', y.
    split; [by right | done].
Qed.

(** ** Dictionaries that are iterated *)

Lemma set_entry_keys {V} (a : arc) (v : V) es :
  (set_entry a v es).*1
  = if decide (a ∈ es.*1) then es.*1 else (es.*1 ++ [a])%list.
Proof.
  induction es as [|[b w] es IH].
  - cbn [set_entry fmap list_fmap fst app].
    destruct (decide (a ∈ [])) as [Hin|_]; [by apply elem_of_nil in Hin | done].
  - cbn [set_entry fst]. destruct (decide (b = a)) as [->|Hne].
    + rewrite !fmap_cons. cbn [fst].
      rewrite decide_True; [done | apply list_elem_of_here].
    + rewrite !fmap_cons, IH. cbn [fst].
      destruct (decide (a ∈ es.*1)) as [Hin|Hout].
      * rewrite decide_True; [done | by apply list_elem_of_further].
      * rewrite decide_False; [done|].
        intros [?|?]%elem_of_cons; [by subst | done].
Qed.

Lemma set_entry_NoDup {V} (a : arc) (v : V) es :
  NoDup es.*1 → NoDup (set_entry a v es).*1.
Proof.
  intros Hnd. rewrite set_entry_keys. destruct (decide _) as [|Hout]; [done|].
  apply NoDup_app. split; [done|]. split; [|apply NoDup_singleton].
  intros b Hb ->%list_elem_of_singleton. done.
Qed.

Lemma assoc_set_entry {V} (a b : arc) (v : V) es :
  assoc b (set_entry a v es) = if decide (a = b) then Some v else assoc b es.
Proof.
  induction es as [|[c w] es IH]; simpl.
  - by destruct (decide (a = b)).
  - destruct (decide (c = a)) as [->|Hca]; simpl.
    + destruct (decide (a = b)); done.
    + rewrite IH. destruct (decide (c = b)) as [->|]; [|done].
      by rewrite decide_False by done.
Qed.

Lemma foldl_set_entry_NoDup {V} (l acc : list (arc * V)) :
  NoDup acc.*1 →
  NoDup (foldl (λ es kv, set_entry kv.1 kv.2 es) acc l).*1.
Proof.
  revert acc. induction l as [|[a v] l IH]; intros acc Hnd; simpl; [done|].
  by apply IH, set_entry_NoDup.
Qed.

Lemma keys_NoDup {V} (d : pydict V) : NoDup (keys d).
Proof. apply foldl_set_entry_NoDup. simpl. apply NoDup_nil_2. Qed.

Lemma assoc_None {V} (a : arc) (es : list (arc * V)) :
  assoc a es = None ↔ a ∉ es.*1.
Proof.
  induction es as [|[b w] es IH]; simpl.
  - split; [intros _; apply not_elem_of_nil | done].
  - rewrite not_elem_of_cons. destruct (decide (b = a)) as [->|Hne].
    + split; [done | by intros [? _]].
    + rewrite IH. split; [by intros ? | by intros [_ ?]].
Qed.

Lemma elem_of_assoc {V} (a : arc) (v : V) es :
  NoDup es.*1 → (a, v) ∈ es ↔ assoc a es = Some v.
Proof.
  induction es as [|[b w] es IH]; simpl; intros Hnd.
  - split; [by intros ?%elem_of_nil | done].
  - apply NoDup_cons in Hnd as [Hb Hnd]. rewrite elem_of_cons.
    destruct (decide (b = a)) as [->|Hne].
    + split.
      * intros [[= ->]|Hin]; [done|]. exfalso. apply Hb.
        apply list_elem_of_fmap. by exists (a, v).
      * intros [= ->]. by left.
    + rewrite <- IH by done. split; [|by right].
      intros [[= -> _]|?]; done.
Qed.

Lemma elem_of_entries {V} (d : pydict V) a v :
  (a, v) ∈ entries d ↔ d !! a = Some v.
Proof. apply elem_of_assoc, keys_NoDup. Qed.

Lemma elem_of_keys {V} (d : pydict V) a : a ∈ keys d ↔ is_Some (d !! a).
Proof.
  unfold keys. rewrite list_elem_of_fmap. split.
  - intros ([a' v] & -> & Hin). exists v. by apply elem_of_entries.
  - intros [v Hv]. exists (a, v). split; [done|]. by apply elem_of_entries.
Qed.

Lemma entries_insert {V} (d : pydict V) a v :
  entries (<[a:=v]> d) = set_entry a v (entries d).
Proof. unfold entries, insert, pydict_insert. simpl. by rewrite foldl_app. Qed.

Lemma lookup_pydict_insert {V} (d : pydict V) a v b :
  <[a:=v]> d !! b = if decide (a = b) then Some v else d !! b.
Proof.
  unfold lookup, pydict_lookup. rewrite entries_insert. apply assoc_set_entry.
Qed.

Lemma lookup_pydict_insert_eq {V} (d : pydict V) a v :
  <[a:=v]> d !! a = Some v.
Proof. rewrite lookup_pydict_insert. by rewrite decide_True. Qed.

Lemma lookup_pydict_insert_is_Some {V} (d : pydict V) a v b :
  is_Some (d !! b) → is_Some (<[a:=v]> d !! b).
Proof. rewrite lookup_pydict_insert. destruct (decide (a = b)); eauto. Qed.

Lemma lookup_pydict_empty {V} (a : arc) : (∅ : pydict V) !! a = None.
Proof. done. Qed.

Lemma foldl_set_entry_fresh {V} (l acc : list (arc * V)) :
  NoDup ((acc ++ l)%list).*1 →
  foldl (λ es kv, set_entry kv.1 kv.2 es) acc l = (acc ++ l)%list.
Proof.
  revert acc. induction l as [|[a v] l IH]; intros acc Hnd; simpl.
  - by rewrite app_nil_r.
  - assert (set_entry a v acc = (acc ++ [(a, v)])%list) as ->.
    { clear IH. rewrite fmap_app in Hnd. apply NoDup_app in Hnd as (_ & Hd & _).
      induction acc as [|[b w] acc IHacc]; simpl; [done|].
      rewrite decide_False.
      - rewrite IHacc; [done|]. intros x Hx. apply Hd.
        by apply list_elem_of_further.
      - intros ->. apply (Hd a); [apply list_elem_of_here|].
        simpl. apply list_elem_of_here. }
    rewrite IH; [by rewrite <- app_assoc|]. by rewrite <- app_assoc.
Qed.

Lemma entries_fresh {V} (l : list (arc * V)) :
  NoDup l.*1 → entries (PyDict l) = l.
Proof. intros Hnd. by apply (foldl_set_entry_fresh l []). Qed.

Lemma entries_flow_dict cost :
  entries (flow_dict cost) = (λ a, (a, flow_var a)) <$> keys cost.
Proof.
  apply entries_fresh. rewrite <- list_fmap_compose.
  rewrite (list_fmap_ext _ id (keys cost)) by done.
  rewrite list_fmap_id. apply keys_NoDup.
Qed.

Lemma lookup_flow_dict cost a v :
  flow_dict cost !! a = Some v ↔ is_Some (cost !! a) ∧ v = flow_var a.
Proof.
  rewrite <- elem_of_entries, entries_flow_dict, list_elem_of_fmap.
  rewrite <- elem_of_keys. split.
  - by intros (b & [= -> ->] & Hb).
  - intros [Ha ->]. by exists a.
Qed.

Lemma flow_dict_covers (cost : pydict Q) (a : arc) :
  is_Some (cost !! a) → is_Some (flow_dict cost !! a).
Proof.
  intros Ha. exists (flow_var a). by apply lookup_flow_dict.
Qed.

(** ** Names *)

Lemma string_app_assoc (s1 s2 s3 : string) :
  ((s1 ++ s2) ++ s3 = s1 ++ (s2 ++ s3))%string.
Proof.
  induction s1 as [|a s1 IH]; [done|].
  change (String a ((s1 ++ s2) ++ s3) = String a (s1 ++ (s2 ++ s3)))%string.
  by rewrite IH.
Qed.

Lemma string_app_length (s1 s2 : string) :
  String.length (s1 ++ s2) = String.length s1 + String.length s2.
Proof.
  induction s1 as [|a s1 IH]; [done|].
  change (S (String.length (s1 ++ s2))
          = S (String.length s1 + String.length s2)).
  by rewrite IH.
Qed.

Lemma sanitise_app (s1 s2 : string) :
  sanitise (s1 ++ s2) = (sanitise s1 ++ sanitise s2)%string.
Proof.
  induction s1 as [|a s1 IH]; [done|].
  change (String (sanitise_char a) (sanitise (s1 ++ s2))
          = String (sanitise_char a) (sanitise s1 ++ sanitise s2))%string.
  by rewrite IH.
Qed.

Lemma supply_name i : sanitise ("Supply_" ++ i) = "Supply_" ++ sanitise i.
Proof. by rewrite sanitise_app. Qed.

Lemma demand_name j : sanitise ("Demand_" ++ j) = "Demand_" ++ sanitise j.
Proof. by rewrite sanitise_app. Qed.

Lemma transshipment_name k :
  sanitise ("Transshipment_" ++ k) = "Transshipment_" ++ sanitise k.
Proof. by rewrite sanitise_app. Qed.

Lemma prefixed_NoDup (pre : string) (l : list string) :
  NoDup ((λ x, pre ++ sanitise x) <$> l) ↔ NoDup (sanitise <$> l).
Proof.
  rewrite (list_fmap_compose sanitise (String.append pre)).
  apply (NoDup_fmap (String.append pre)).
Qed.

(** ** The model that the three loops build *)

Lemma add_rows_nil p : add_rows p [] = p.
Proof. destruct p. unfold add_rows. simpl. by rewrite app_nil_r. Qed.

Lemma add_rows_app p rs1 rs2 :
  add_rows (add_rows p rs1) rs2 = add_rows p (rs1 ++ rs2).
Proof. unfold add_rows. simpl. by rewrite <- app_assoc. Qed.

Lemma add_constraint_Ok p c n p' :
  add_constraint p c n = Ok p' ↔
  (sanitise n ∉ (constraints p).*1) ∧ p' = add_rows p [(sanitise n, c)].
Proof.
  unfold add_constraint. destruct (decide _) as [Hin|Hout]; split.
  - done.
  - by intros [? _].
  - by intros [= <-].
  - by intros [_ ->].
Qed.

Lemma add_constraint_Raise p c n e :
  add_constraint p c n = Raise e ↔
  (sanitise n ∈ (constraints p).*1) ∧ e = overlapping (sanitise n).
Proof.
  unfold add_constraint. destruct (decide _) as [Hin|Hout]; split.
  - by intros [= <-].
  - by intros [_ ->].
  - done.
  - by intros [? _].
Qed.

(** A loop that adds one row per element runs through exactly when every
    element passes and no name comes twice. *)
Lemma foldM_rows {A} (body : LpProblem → A → result LpProblem)
    (ok : A → Prop) (row : A → string * LpConstraint) :
  (∀ p x p', body p x = Ok p' ↔
             ok x ∧ ((row x).1 ∉ (constraints p).*1) ∧ p' = add_rows p [row x]) →
  ∀ l p p', foldM body p l = Ok p' ↔
            (∀ x, x ∈ l → ok x) ∧
            NoDup (row <$> l).*1 ∧
            (∀ x, x ∈ l → (row x).1 ∉ (constraints p).*1) ∧
            p' = add_rows p (row <$> l).
Proof.
  intros Hbody. induction l as [|x l IH]; intros p p'; simpl.
  - rewrite add_rows_nil. split.
    + intros [= <-]. split; [by inversion 1|]. split; [apply NoDup_nil_2|].
      split; [by inversion 1 | done].
    + by intros (_ & _ & _ & ->).
  - rewrite bind_Ok. split.
    + intros (q & Hq & Hl). apply Hbody in Hq as (Hx & Hfresh & ->).
      apply IH in Hl as (Hl & Hnd & Hfr & ->).
      simpl in Hfr. rewrite add_rows_app.
      split; [intros y [->|Hy]%elem_of_cons; auto|].
      split; [|split; [|done]].
      * apply NoDup_cons. split; [|done].
        intros (y & Hy & Hin)%list_elem_of_fmap.
        apply list_elem_of_fmap in Hin as (z & -> & Hz).
        apply (Hfr z Hz). rewrite fmap_app, elem_of_app. right.
        rewrite <- Hy. apply list_elem_of_here.
      * intros y [->|Hy]%elem_of_cons; [done|].
        intros Hin. apply (Hfr y Hy). rewrite fmap_app, elem_of_app. by left.
    + intros (Hok & Hnd & Hfr & ->). apply NoDup_cons in Hnd as [Hx Hnd].
      exists (add_rows p [row x]). split.
      * apply Hbody. split; [apply Hok; by left|].
        split; [apply Hfr; by left | done].
      * apply IH. split; [intros y Hy; apply Hok; by right|].
        split; [done|]. split; [|by rewrite add_rows_app].
        intros y Hy. simpl. rewrite fmap_app, elem_of_app.
        intros [Hin|Hin%list_elem_of_singleton].
        -- by apply (Hfr y); [right|].
        -- apply Hx. rewrite <- Hin. apply list_elem_of_fmap.
           exists (row y). split; [done|]. by apply list_elem_of_fmap_2.
Qed.

(** In such a loop a name that is taken is the only thing that can go
    wrong besides what goes wrong in the body. *)
Lemma foldM_rows_Raise {A} (body : LpProblem → A → result LpProblem)
    (ok : A → Prop) (row : A → string * LpConstraint) (bad : exn → Prop) :
  (∀ p x p', body p x = Ok p' ↔
             ok x ∧ ((row x).1 ∉ (constraints p).*1) ∧ p' = add_rows p [row x]) →
  (∀ p x e, body p x = Raise e → bad e ∨ ((row x).1 ∈ (constraints p).*1)) →
  ∀ l p e, foldM body p l = Raise e →
           NoDup (row <$> l).*1 →
           (∀ x, x ∈ l → (row x).1 ∉ (constraints p).*1) →
           bad e.
Proof.
  intros Hbody Hbad. induction l as [|x l IH]; intros p e; simpl; [done|].
  rewrite bind_Raise. intros [Hx|(q & Hq & Hl)] Hnd Hfr.
  - destruct (Hbad _ _ _ Hx) as [?|Hin]; [done|].
    exfalso. apply (Hfr x); [by left | done].
  - apply NoDup_cons in Hnd as [Hx Hnd].
    apply Hbody in Hq as (_ & _ & ->). apply (IH _ _ Hl Hnd).
    intros y Hy. simpl. rewrite fmap_app, elem_of_app.
    intros [Hin|Hin%list_elem_of_singleton].
    + by apply (Hfr y); [right|].
    + apply Hx. rewrite <- Hin. apply list_elem_of_fmap.
      exists (row y). split; [done|]. by apply list_elem_of_fmap_2.
Qed.

Lemma flow_lookups_Ok cost (g : node → arc) l vs :
  mapM (λ x, getitem KeyArc (flow_dict cost) (g x)) l = Ok vs ↔
  (∀ x, x ∈ l → is_Some (cost !! g x)) ∧ vs = (λ x, flow_var (g x)) <$> l.
Proof.
  rewrite mapM_Ok. revert vs. induction l as [|x l IH]; intros vs; split.
  - inversion 1. split; [by inversion 1 | done].
  - intros [_ ->]. constructor.
  - inversion 1 as [|? v ? vs' Hv Hvs]; subst.
    apply getitem_Ok, lookup_flow_dict in Hv as [Hx ->].
    apply IH in Hvs as [Hl ->]. split; [|done].
    intros y [->|Hy]%elem_of_cons; auto.
  - intros [Hl ->]. simpl. constructor.
    + apply getitem_Ok, lookup_flow_dict. split; [apply Hl; by left | done].
    + apply IH. split; [intros y Hy; apply Hl; by right | done].
Qed.

Lemma supply_body_Ok cost supply T p i p' :
  supply_body (flow_dict cost) supply T p i = Ok p' ↔
  ((∀ j, j ∈ T → is_Some (cost !! (i, j))) ∧ is_Some (supply !! i)) ∧
  ((supply_row T supply i).1 ∉ (constraints p).*1) ∧
  p' = add_rows p [supply_row T supply i].
Proof.
  unfold supply_body. rewrite bind_Ok. split.
  - intros (out & Hout & Hs). apply flow_lookups_Ok in Hout as [HT ->].
    apply bind_Ok in Hs as (s & Hs & Hadd). apply getitem_Ok in Hs.
    apply add_constraint_Ok in Hadd as [Hfresh ->].
    unfold supply_row. rewrite Hs. eauto.
  - intros ([HT [s Hs]] & Hfresh & ->). eexists. split.
    + apply flow_lookups_Ok. by split.
    + apply bind_Ok. exists s. split; [by apply getitem_Ok|].
      apply add_constraint_Ok. unfold supply_row in *. by rewrite Hs.
Qed.

Lemma demand_body_Ok cost demand T p j p' :
  demand_body (flow_dict cost) demand T p j = Ok p' ↔
  ((∀ i, i ∈ T → is_Some (cost !! (i, j))) ∧ is_Some (demand !! j)) ∧
  ((demand_row T demand j).1 ∉ (constraints p).*1) ∧
  p' = add_rows p [demand_row T demand j].
Proof.
  unfold demand_body. rewrite bind_Ok. split.
  - intros (inc & Hinc & Hd). apply flow_lookups_Ok in Hinc as [HT ->].
    apply bind_Ok in Hd as (d & Hd & Hadd). apply getitem_Ok in Hd.
    apply add_constraint_Ok in Hadd as [Hfresh ->].
    unfold demand_row. rewrite Hd. eauto.
  - intros ([HT [d Hd]] & Hfresh & ->). eexists. split.
    + apply (flow_lookups_Ok cost (λ i, (i, j))). by split.
    + apply bind_Ok. exists d. split; [by apply getitem_Ok|].
      apply add_constraint_Ok. unfold demand_row in *. by rewrite Hd.
Qed.

Lemma transshipment_body_Ok cost S D p k p' :
  transshipment_body (flow_dict cost) S D p k = Ok p' ↔
  ((∀ i, i ∈ S → is_Some (cost !! (i, k))) ∧
   (∀ j, j ∈ D → is_Some (cost !! (k, j)))) ∧
  ((transshipment_row S D k).1 ∉ (constraints p).*1) ∧
  p' = add_rows p [transshipment_row S D k].
Proof.
  unfold transshipment_body. rewrite bind_Ok. split.
  - intros (inc & Hinc & Hout).
    apply (flow_lookups_Ok cost (λ i, (i, k))) in Hinc as [HS ->].
    apply bind_Ok in Hout as (out & Hout & Hadd).
    apply flow_lookups_Ok in Hout as [HD ->].
    apply add_constraint_Ok in Hadd as [Hfresh ->]. eauto.
  - intros ([HS HD] & Hfresh & ->). eexists. split.
    + apply (flow_lookups_Ok cost (λ i, (i, k))). by split.
    + apply bind_Ok. eexists. split; [apply flow_lookups_Ok; by split|].
      by apply add_constraint_Ok.
Qed.

Lemma mapM_keys_Ok {V R : Type} (d : pydict V) (f : arc → result R)
    (g : arc * V → R) :
  (∀ a v, d !! a = Some v → f a = Ok (g (a, v))) →
  mapM f (keys d) = Ok (g <$> entries d).
Proof.
  intros Hf. apply mapM_Ok. unfold keys. rewrite Forall2_fmap_l.
  apply Forall2_fmap_r, Forall_Forall2_diag, Forall_forall.
  intros [a v] Hav%elem_of_entries. by apply Hf.
Qed.

Lemma objective_terms_Ok cost :
  mapM (objective_term cost (flow_dict cost)) (keys cost)
  = Ok ((λ ac, scale ac.2 (flow_var ac.1)) <$> entries cost).
Proof.
  apply mapM_keys_Ok. intros a c Hac. simpl.
  unfold objective_term. apply bind_Ok. exists c.
  split; [by apply getitem_Ok|]. apply bind_Ok. exists (flow_var a).
  split; [|done]. apply getitem_Ok, lookup_flow_dict. eauto.
Qed.

Lemma getitem_roles nodes S T D :
  roles nodes S T D →
  getitem KeyStr nodes "sources" = Ok S ∧
  getitem KeyStr nodes "transshipments" = Ok T ∧
  getitem KeyStr nodes "destinations" = Ok D.
Proof. intros (HS & HT & HD). by rewrite !getitem_Ok. Qed.

(** The names of the rows of the three loops. *)
Lemma supply_names S T supply :
  (supply_row T supply <$> S).*1 = (λ i, "Supply_" ++ sanitise i) <$> S.
Proof.
  rewrite <- list_fmap_compose. apply list_fmap_ext. intros n i _. simpl.
  apply supply_name.
Qed.

Lemma demand_names D T demand :
  (demand_row T demand <$> D).*1 = (λ j, "Demand_" ++ sanitise j) <$> D.
Proof.
  rewrite <- list_fmap_compose. apply list_fmap_ext. intros n j _. simpl.
  apply demand_name.
Qed.

Lemma transshipment_names S T D :
  (transshipment_row S D <$> T).*1
  = (λ k, "Transshipment_" ++ sanitise k) <$> T.
Proof.
  rewrite <- list_fmap_compose. apply list_fmap_ext. intros n k _. simpl.
  apply transshipment_name.
Qed.

Lemma demand_name_fresh S T supply j :
  sanitise ("Demand_" ++ j) ∉ (supply_row T supply <$> S).*1.
Proof.
  rewrite supply_names, demand_name.
  by intros (i & [=] & _)%list_elem_of_fmap.
Qed.

Lemma transshipment_name_fresh S T D supply demand k :
  sanitise ("Transshipment_" ++ k)
    ∉ ((supply_row T supply <$> S) ++ (demand_row T demand <$> D))%list.*1.
Proof.
  rewrite fmap_app, supply_names, demand_names, transshipment_name.
  rewrite elem_of_app.
  by intros [(i & [=] & _)%list_elem_of_fmap|(j & [=] & _)%list_elem_of_fmap].
Qed.

Lemma model_from_rows S T D supply demand cost :
  add_rows
    (add_rows
       (add_rows
          (set_objective (LpProblem_new "Transshipment_Problem" LpMinimize)
             (lpSum ((λ ac, scale ac.2 (flow_var ac.1)) <$> entries cost))
             "Total Cost")
          (supply_row T supply <$> S))
       (demand_row T demand <$> D))
    (transshipment_row S D <$> T)
  = model S T D supply demand cost.
Proof.
  unfold model, add_rows, set_objective, LpProblem_new. simpl.
  by rewrite <- app_assoc.
Qed.

(** Construction succeeds exactly when no entry is missing and no name
    comes twice, and then it yields [model]. *)
Lemma build_problem_Ok nodes supply demand cost S T D p flow :
  roles nodes S T D →
  build_problem nodes supply demand cost = Ok (p, flow) ↔
  accepted S T D supply demand cost ∧
  p = model S T D supply demand cost ∧ flow = flow_dict cost.
Proof.
  intros (HS & HT & HD)%getitem_roles. unfold build_problem.
  rewrite HS, HT, HD. simpl. rewrite objective_terms_Ok. simpl.
  rewrite bind_Ok.
  setoid_rewrite (foldM_rows _ _ _ (supply_body_Ok cost supply T)).
  split.
  - intros (p1 & (Hsup & Hnd1 & _ & ->) & H2).
    apply bind_Ok in H2 as (p2 & H2 & H3).
    apply (foldM_rows _ _ _ (demand_body_Ok cost demand T))
      in H2 as (Hdem & Hnd2 & _ & ->).
    apply bind_Ok in H3 as (p3 & H3 & [= <- <-]).
    apply (foldM_rows _ _ _ (transshipment_body_Ok cost S D))
      in H3 as (Htr & Hnd3 & _ & ->).
    split; [|split; [|done]].
    + split.
      * repeat split.
        -- intros i k Hi Hk. by apply (Hsup i Hi).
        -- intros k j Hk Hj. by apply (Htr k Hk).
        -- intros i Hi. by apply (Hsup i Hi).
        -- intros j Hj. by apply (Hdem j Hj).
      * rewrite supply_names in Hnd1. rewrite demand_names in Hnd2.
        rewrite transshipment_names in Hnd3.
        apply prefixed_NoDup in Hnd1, Hnd2, Hnd3. by repeat split.
    + apply model_from_rows.
  - intros (((Hst & Htd & Hsup & Hdem) & (Hn1 & Hn2 & Hn3)) & -> & ->).
    eexists. split; [split; [|split; [|split; [|done]]]|].
    + intros i Hi. split; [intros k Hk; by apply Hst | by apply Hsup].
    + rewrite supply_names. by apply prefixed_NoDup.
    + intros i Hi. simpl. apply not_elem_of_nil.
    + apply bind_Ok. eexists. split.
      * apply (foldM_rows _ _ _ (demand_body_Ok cost demand T)).
        split; [|split; [|split; [|done]]].
        -- intros j Hj. split; [intros k Hk; by apply Htd | by apply Hdem].
        -- rewrite demand_names. by apply prefixed_NoDup.
        -- intros j Hj. simpl. apply demand_name_fresh.
      * apply bind_Ok. eexists. split.
        -- apply (foldM_rows _ _ _ (transshipment_body_Ok cost S D)).
           split; [|split; [|split; [|done]]].
           ++ intros k Hk.
              split; [intros i Hi; by apply Hst | intros j Hj; by apply Htd].
           ++ rewrite transshipment_names. by apply prefixed_NoDup.
           ++ intros k Hk. simpl. apply transshipment_name_fresh.
        -- by rewrite model_from_rows.
Qed.

Lemma build_problem_roles nodes supply demand cost p flow :
  build_problem nodes supply demand cost = Ok (p, flow) →
  ∃ S T D, roles nodes S T D.
Proof.
  unfold build_problem. intros H.
  apply bind_Ok in H as (S & HS%getitem_Ok & H).
  apply bind_Ok in H as (T & HT%getitem_Ok & H).
  apply bind_Ok in H as (D & HD%getitem_Ok & _).
  by exists S, T, D.
Qed.

Lemma build_problem_inv nodes supply demand cost p flow :
  build_problem nodes supply demand cost = Ok (p, flow) →
  ∃ S T D, roles nodes S T D ∧ accepted S T D supply demand cost ∧
           p = model S T D supply demand cost ∧ flow = flow_dict cost.
Proof.
  intros Hb. destruct (build_problem_roles _ _ _ _ _ _ Hb) as (S & T & D & Hr).
  exists S, T, D. split; [done|].
  by apply (build_problem_Ok _ _ _ _ _ _ _ _ _ Hr).
Qed.

Lemma flow_lookups_Raise {V} (flow : pydict V) (g : node → arc) l e :
  mapM (λ x, getitem KeyArc flow (g x)) l = Raise e → is_KeyError e.
Proof.
  intros (x & _ & [_ ->]%getitem_Raise)%mapM_Raise. by eexists.
Qed.

(** What a body of one of the three loops raises: a [KeyError], or the
    library's [PulpError] for a name that is taken. *)
Lemma supply_body_Raise flow supply T p i e :
  supply_body flow supply T p i = Raise e →
  is_KeyError e ∨
  (sanitise ("Supply_" ++ i) ∈ (constraints p).*1 ∧ is_PulpError e).
Proof.
  unfold supply_body. intros H.
  apply bind_Raise in H as [H|(? & _ & H)];
    [left; by eapply flow_lookups_Raise|].
  apply bind_Raise in H as [[_ ->]%getitem_Raise|(? & _ & H)];
    [left; by eexists|].
  apply add_constraint_Raise in H as [? ->]. right. split; [done | by eexists].
Qed.

Lemma demand_body_Raise flow demand T p j e :
  demand_body flow demand T p j = Raise e →
  is_KeyError e ∨
  (sanitise ("Demand_" ++ j) ∈ (constraints p).*1 ∧ is_PulpError e).
Proof.
  unfold demand_body. intros H.
  apply bind_Raise in H as [H|(? & _ & H)];
    [left; by eapply (flow_lookups_Raise _ (λ i, (i, j)))|].
  apply bind_Raise in H as [[_ ->]%getitem_Raise|(? & _ & H)];
    [left; by eexists|].
  apply add_constraint_Raise in H as [? ->]. right. split; [done | by eexists].
Qed.

Lemma transshipment_body_Raise flow S D p k e :
  transshipment_body flow S D p k = Raise e →
  is_KeyError e ∨
  (sanitise ("Transshipment_" ++ k) ∈ (constraints p).*1 ∧ is_PulpError e).
Proof.
  unfold transshipment_body. intros H.
  apply bind_Raise in H as [H|(? & _ & H)];
    [left; by eapply (flow_lookups_Raise _ (λ i, (i, k)))|].
  apply bind_Raise in H as [H|(? & _ & H)];
    [left; by eapply flow_lookups_Raise|].
  apply add_constraint_Raise in H as [? ->]. right. split; [done | by eexists].
Qed.

(** Whatever goes wrong before [problem.solve()] is a [KeyError] or the
    library's [PulpError]. *)
Lemma build_problem_Raise nodes supply demand cost e :
  build_problem nodes supply demand cost = Raise e →
  is_KeyError e ∨ is_PulpError e.
Proof.
  unfold build_problem.
  repeat (rewrite bind_Raise;
          intros [[_ ->]%getitem_Raise|(? & _ & H)]; [left; by eexists|];
          revert H).
  rewrite objective_terms_Ok. simpl.
  rewrite bind_Raise. intros [H|(p1 & _ & H)].
  { apply foldM_Raise in H as (p & i & _ & H).
    apply supply_body_Raise in H as [?|[_ ?]]; auto. }
  apply bind_Raise in H as [H|(p2 & _ & H)].
  { apply foldM_Raise in H as (p & j & _ & H).
    apply demand_body_Raise in H as [?|[_ ?]]; auto. }
  apply bind_Raise in H as [H|(p3 & _ & ?)]; [|done].
  apply foldM_Raise in H as (p & k & _ & H).
  apply transshipment_body_Raise in H as [?|[_ ?]]; auto.
Qed.

(** When no name comes twice it is a [KeyError]. *)
Lemma build_problem_KeyError nodes supply demand cost S T D e :
  roles nodes S T D →
  distinct_names S T D →
  build_problem nodes supply demand cost = Raise e → is_KeyError e.
Proof.
  intros (HS & HT & HD)%getitem_roles (Hn1 & Hn2 & Hn3).
  unfold build_problem. rewrite HS, HT, HD. simpl.
  rewrite objective_terms_Ok. simpl.
  rewrite bind_Raise. intros [H|(p1 & H1 & H)].
  { eapply (foldM_rows_Raise _ _ _ is_KeyError
              (supply_body_Ok cost supply T)); [|exact H| |].
    - intros p x e' He. apply supply_body_Raise in He as [?|[? _]]; auto.
    - rewrite supply_names. by apply prefixed_NoDup.
    - intros i Hi. simpl. apply not_elem_of_nil. }
  apply (foldM_rows _ _ _ (supply_body_Ok cost supply T))
    in H1 as (_ & _ & _ & ->).
  apply bind_Raise in H as [H|(p2 & H2 & H)].
  { eapply (foldM_rows_Raise _ _ _ is_KeyError
              (demand_body_Ok cost demand T)); [|exact H| |].
    - intros p x e' He. apply demand_body_Raise in He as [?|[? _]]; auto.
    - rewrite demand_names. by apply prefixed_NoDup.
    - intros j Hj. simpl. apply demand_name_fresh. }
  apply (foldM_rows _ _ _ (demand_body_Ok cost demand T))
    in H2 as (_ & _ & _ & ->).
  apply bind_Raise in H as [H|(p3 & _ & ?)]; [|done].
  eapply (foldM_rows_Raise _ _ _ is_KeyError
            (transshipment_body_Ok cost S D)); [|exact H| |].
  - intros p x e' He. apply transshipment_body_Raise in He as [?|[? _]]; auto.
  - rewrite transshipment_names. by apply prefixed_NoDup.
  - intros k Hk. simpl. apply transshipment_name_fresh.
Qed.

(** ** Sums and the value of expressions *)

Lemma Qsum_app l1 l2 : (Qsum (l1 ++ l2) == Qsum l1 + Qsum l2)%Q.
Proof.
  induction l1 as [|x l1 IH]; simpl.
  - by rewrite Qplus_0_l.
  - rewrite IH. by rewrite Qplus_assoc.
Qed.

Lemma Qsum_cons x l : Qsum (x :: l) = (x + Qsum l)%Q.
Proof. done. Qed.

Lemma Qsum_fmap_ext {A} (f g : A → Q) l :
  (∀ x, x ∈ l → (f x == g x)%Q) → (Qsum (f <$> l) == Qsum (g <$> l))%Q.
Proof.
  induction l as [|x l IH]; intros Hfg; simpl; [done|].
  rewrite (Hfg x) by (by left). rewrite IH; [done|].
  intros y Hy. apply Hfg. by right.
Qed.

Lemma foldl_terms σ a ts :
  (foldl (λ s t, s + at_var σ t.1 * t.2) a ts
   == a + Qsum (term_value σ <$> ts))%Q.
Proof.
  revert a. induction ts as [|t ts IH]; intros a; simpl.
  - by rewrite Qplus_0_r.
  - rewrite IH. unfold term_value. by rewrite Qplus_assoc.
Qed.

Lemma eval_terms σ e :
  (eval σ e == constant e + Qsum (term_value σ <$> terms e))%Q.
Proof. apply foldl_terms. Qed.

Lemma eval_of_const σ q : eval σ (of_const q) = q.
Proof. done. Qed.

Lemma eval_lpSum σ es : (eval σ (lpSum es) == Qsum (eval σ <$> es))%Q.
Proof.
  rewrite eval_terms. unfold lpSum. cbn [terms constant].
  induction es as [|e es IH].
  - simpl. by rewrite Qplus_0_l.
  - rewrite !fmap_cons. cbn [concat foldr Qsum].
    rewrite fmap_app, Qsum_app, (eval_terms σ e).
    change (foldr Qplus 0%Q (eval σ <$> es)) with (Qsum (eval σ <$> es)).
    rewrite <- IH. ring.
Qed.

Lemma eval_lpSum_vars {A} σ (g : A → arc) l :
  (eval σ (lpSum (of_var <$> ((λ x, flow_var (g x)) <$> l)))
   == Qsum ((λ x, σ (g x)) <$> l))%Q.
Proof.
  rewrite eval_lpSum, <- !list_fmap_compose. apply Qsum_fmap_ext.
  intros x _. unfold compose, eval, of_var, at_var, flow_var, LpVariable_new.
  cbn [terms constant foldl fst snd var_id]. ring.
Qed.

Lemma eval_scale σ c v : (eval σ (scale c v) == c * at_var σ v)%Q.
Proof.
  unfold scale. destruct (Qeq_bool c 0) eqn:Hc; unfold eval;
    cbn [terms constant foldl fst snd].
  - apply Qeq_bool_iff in Hc. rewrite Hc. ring.
  - ring.
Qed.

Lemma eval_objective S T D supply demand cost σ :
  (eval σ (objective (model S T D supply demand cost)) == flow_cost cost σ)%Q.
Proof.
  simpl. rewrite eval_lpSum, <- list_fmap_compose. apply Qsum_fmap_ext.
  intros [a c] _. simpl. by rewrite eval_scale.
Qed.

Lemma at_var_total vals v :
  at_var (total vals) v = default 0%Q (varValue vals v).
Proof. unfold at_var, varValue, total. by destruct (var_id v). Qed.

Lemma value_defined vals e :
  Forall (λ v, is_Some (varValue vals v)) (expr_vars e) →
  value vals e = Some (eval (total vals) e).
Proof.
  unfold value, eval, expr_vars. generalize (constant e).
  induction (terms e) as [|[v c] ts IH]; intros a Hdef; simpl; [done|].
  apply Forall_cons in Hdef as [[x Hx] Hdef]. simpl in Hx.
  rewrite <- (IH _ Hdef). rewrite at_var_total. simpl. by rewrite Hx.
Qed.

Lemma value_foldl_None vals ts :
  foldl (λ acc t, s ← acc; x ← varValue vals t.1; Some (s + x * t.2)%Q)
        None ts = None.
Proof. induction ts as [|t ts IH]; simpl; [done | apply IH]. Qed.

Lemma value_None vals e :
  value vals e = None ↔ ∃ v, v ∈ expr_vars e ∧ varValue vals v = None.
Proof.
  split.
  - intros Hn.
    destruct (decide (Forall (λ v, is_Some (varValue vals v)) (expr_vars e)))
      as [Hall|Hex].
    { rewrite (value_defined _ _ Hall) in Hn. discriminate Hn. }
    apply not_Forall_Exists in Hex; [|apply _].
    apply Exists_exists in Hex as (v & Hv & Hnone). exists v. split; [done|].
    by apply eq_None_not_Some.
  - intros (v & Hv & Hnone). unfold value, expr_vars in *.
    generalize (Some (constant e)).
    induction (terms e) as [|t ts IH]; intros acc; simpl.
    { by apply elem_of_nil in Hv. }
    rewrite fmap_cons in Hv. apply elem_of_cons in Hv as [->|Hv].
    + rewrite Hnone. destruct acc; simpl; apply value_foldl_None.
    + by apply IH.
Qed.

(** ** The variables of a problem *)

Lemma elem_of_insert_by_name v w l :
  v ∈ insert_by_name w l ↔ v = w ∨ v ∈ l.
Proof.
  induction l as [|x l IH]; simpl.
  - rewrite list_elem_of_singleton. split; [auto|]. by intros [?|?%elem_of_nil].
  - destruct (String.leb _ _).
    + by rewrite elem_of_cons.
    + rewrite !elem_of_cons, IH. tauto.
Qed.

Lemma elem_of_sort_by_name v l : v ∈ sort_by_name l ↔ v ∈ l.
Proof.
  induction l as [|x l IH]; simpl; [done|].
  by rewrite elem_of_insert_by_name, elem_of_cons, IH.
Qed.

Lemma add_variables_subset seen vs v :
  v ∈ add_variables seen vs → v ∈ seen ∨ v ∈ vs.
Proof.
  revert seen. induction vs as [|w vs IH]; intros seen; simpl; [auto|].
  rewrite elem_of_cons. destruct (decide _); intros [Hv|?]%IH; auto.
  apply elem_of_app in Hv as [?|Hv%list_elem_of_singleton]; subst; auto.
Qed.

Lemma add_variables_covers seen vs a :
  a ∈ var_id <$> seen ∨ a ∈ var_id <$> vs →
  a ∈ var_id <$> add_variables seen vs.
Proof.
  revert seen. induction vs as [|w vs IH]; intros seen; simpl.
  - by intros [?|?%elem_of_nil].
  - rewrite elem_of_cons. intros Hv.
    destruct (decide _) as [Hin|Hnin]; apply IH.
    + destruct Hv as [?|[->|?]]; auto.
    + rewrite fmap_app, elem_of_app. simpl. rewrite list_elem_of_singleton.
      destruct Hv as [?|[->|?]]; auto.
Qed.

Lemma elem_of_variables p v :
  v ∈ variables p → v ∈ all_vars p.
Proof.
  unfold variables. rewrite elem_of_sort_by_name.
  by intros [?%elem_of_nil|?]%add_variables_subset.
Qed.

Lemma variables_covers p v :
  v ∈ all_vars p → ∃ w, w ∈ variables p ∧ var_id w = var_id v.
Proof.
  intros Hv.
  assert (var_id v ∈ var_id <$> add_variables [] (all_vars p)) as Hin.
  { apply add_variables_covers. right. by apply list_elem_of_fmap_2. }
  apply list_elem_of_fmap in Hin as (w & Hw & Hin). exists w.
  split; [|done]. unfold variables. by rewrite elem_of_sort_by_name.
Qed.

(** When the identity of a variable determines it, the variables of a
    problem are those that occur in it. *)
Lemma variables_by_id p :
  (∀ v w, v ∈ all_vars p → w ∈ all_vars p → var_id v = var_id w → v = w) →
  ∀ v, v ∈ variables p ↔ v ∈ all_vars p.
Proof.
  intros Hid v. split; [apply elem_of_variables|]. intros Hv.
  destruct (variables_covers p v Hv) as (w & Hw & Hvw).
  by rewrite <- (Hid w v (elem_of_variables _ _ Hw) Hv Hvw).
Qed.

Lemma in_problem_spec p a :
  in_problem p a = true ↔ ∃ v, v ∈ all_vars p ∧ var_id v = Some a.
Proof.
  unfold in_problem. rewrite bool_decide_eq_true, list_elem_of_fmap. split.
  - intros (v & Hid & Hv). exists v. split; [by apply elem_of_variables|done].
  - intros (v & Hv & Hid). destruct (variables_covers p v Hv) as (w & Hw & Hwv).
    exists w. split; [congruence | done].
Qed.

Lemma concat_singletons {A B} (f : A → B) l :
  concat ((λ x, [f x]) <$> l) = f <$> l.
Proof. induction l as [|x l IH]; simpl; [done | f_equal; apply IH]. Qed.

Lemma elem_of_concat {A} (x : A) (ls : list (list A)) :
  x ∈ concat ls ↔ ∃ l, x ∈ l ∧ l ∈ ls.
Proof.
  induction ls as [|l ls IH]; simpl.
  - split; [by intros ?%elem_of_nil | by intros (? & _ & ?%elem_of_nil)].
  - rewrite elem_of_app, IH. split.
    + intros [?|(l' & ? & ?)]; [exists l | exists l'];
        rewrite elem_of_cons; auto.
    + intros (l' & ? & [->|?]%elem_of_cons); eauto.
Qed.

(** ** What [problem.solve()] does to the problem *)

Lemma problem_solve_eq lib p :
  problem_solve lib p
  = ('(st, vals) ← solve lib (posed p);
     mret (st, stored (posed p) vals, solved p)).
Proof. unfold problem_solve, posed, solved. by destruct (fixObjective p). Qed.

Lemma posed_untouched p :
  terms (objective p) ≠ [] → posed p = p ∧ solved p = p.
Proof.
  unfold posed, solved, fixObjective. by destruct (terms (objective p)).
Qed.

Lemma constraints_posed p : constraints (posed p) = constraints p.
Proof. unfold posed, fixObjective. by destruct (terms (objective p)). Qed.

Lemma constraints_solved p : constraints (solved p) = constraints p.
Proof. unfold solved, fixObjective. by destruct (terms (objective p)). Qed.

Lemma sense_posed p : p_sense (posed p) = p_sense p.
Proof. unfold posed, fixObjective. by destruct (terms (objective p)). Qed.

Lemma objective_vars_posed p v :
  v ∈ expr_vars (objective (posed p)) ↔
  v ∈ expr_vars (objective p) ∨ (terms (objective p) = [] ∧ v = dummyVar).
Proof.
  unfold posed, fixObjective, expr_vars.
  destruct (terms (objective p)) as [|t ts] eqn:Ht; simpl.
  - rewrite Ht. simpl. rewrite list_elem_of_singleton. split; [auto|].
    by intros [?%elem_of_nil|[_ ?]].
  - rewrite Ht. split; [auto|]. by intros [?|[? _]].
Qed.

Lemma objective_vars_solved p v :
  v ∈ expr_vars (objective (solved p)) ↔
  v ∈ expr_vars (objective p) ∨ (terms (objective p) = [] ∧ v = dummyVar).
Proof.
  unfold solved, fixObjective, expr_vars.
  destruct (terms (objective p)) as [|t ts] eqn:Ht; simpl.
  - rewrite Ht. simpl. rewrite !elem_of_cons, !elem_of_nil. split.
    + intros [->|[->|[]]]; by right.
    + intros [[]|[_ ->]]; by left.
  - rewrite Ht. split; [auto|]. by intros [?|[? _]].
Qed.

Lemma all_vars_posed p v :
  v ∈ all_vars (posed p) ↔
  v ∈ all_vars p ∨ (terms (objective p) = [] ∧ v = dummyVar).
Proof.
  unfold all_vars. rewrite !elem_of_app, constraints_posed,
    objective_vars_posed. tauto.
Qed.

Lemma all_vars_solved p v :
  v ∈ all_vars (solved p) ↔
  v ∈ all_vars p ∨ (terms (objective p) = [] ∧ v = dummyVar).
Proof.
  unfold all_vars. rewrite !elem_of_app, constraints_solved,
    objective_vars_solved. tauto.
Qed.

(** [__dummy] is the variable of no key. *)
Lemma in_problem_posed p a : in_problem (posed p) a = in_problem p a.
Proof.
  apply eq_true_iff_eq. rewrite !in_problem_spec.
  setoid_rewrite all_vars_posed. split.
  - intros (v & [Hv|[_ ->]] & Hid); [by eauto | done].
  - intros (v & Hv & Hid). eauto.
Qed.

Lemma in_problem_solved p a : in_problem (solved p) a = in_problem p a.
Proof.
  apply eq_true_iff_eq. rewrite !in_problem_spec.
  setoid_rewrite all_vars_solved. split.
  - intros (v & [Hv|[_ ->]] & Hid); [by eauto | done].
  - intros (v & Hv & Hid). eauto.
Qed.

Lemma stored_posed p vals a :
  stored (posed p) vals a = if in_problem p a then vals a else None.
Proof. unfold stored. by rewrite in_problem_posed. Qed.

Lemma stored_in p vals a :
  in_problem p a = true → stored (posed p) vals a = vals a.
Proof. intros Ha. by rewrite stored_posed, Ha. Qed.

Lemma stored_out p vals a :
  in_problem p a = false → stored (posed p) vals a = None.
Proof. intros Ha. by rewrite stored_posed, Ha. Qed.

Lemma eval_posed p σ :
  (eval σ (objective (posed p)) == eval σ (objective p))%Q.
Proof.
  unfold posed, fixObjective. destruct (terms (objective p)) as [|t ts] eqn:Ht.
  - rewrite !eval_terms. unfold with_objective, expr_add, of_var.
    simpl. rewrite Ht. simpl. unfold term_value, at_var. simpl. ring.
  - done.
Qed.

(** ** The variables and the meaning of the model *)

Lemma flow_var_id a : var_id (flow_var a) = Some a.
Proof. done. Qed.

Lemma flow_var_inj a b : var_id (flow_var a) = var_id (flow_var b) → a = b.
Proof. by intros [= ->]. Qed.

Lemma flow_var_eq_inj a b : flow_var a = flow_var b → a = b.
Proof. intros H. apply flow_var_inj. by rewrite H. Qed.

Lemma terms_scale v c c' w :
  (v, c) ∈ terms (scale c' w) ↔ ¬ (c' == 0)%Q ∧ v = w ∧ c = c'.
Proof.
  unfold scale. destruct (Qeq_bool c' 0) eqn:Hc; simpl.
  - apply Qeq_bool_iff in Hc. rewrite elem_of_nil. tauto.
  - apply Qeq_bool_neq in Hc. rewrite list_elem_of_singleton. split.
    + by intros [= -> ->].
    + by intros (_ & -> & ->).
Qed.

Lemma lpSum_vars {A} (g : A → arc) l v :
  v ∈ expr_vars (lpSum (of_var <$> ((λ x, flow_var (g x)) <$> l))) ↔
  ∃ x, x ∈ l ∧ v = flow_var (g x).
Proof.
  unfold expr_vars. simpl. rewrite <- !list_fmap_compose.
  induction l as [|x l IH]; simpl.
  - rewrite elem_of_nil. split; [done | by intros (? & ?%elem_of_nil & _)].
  - rewrite elem_of_cons, IH. split.
    + intros [->|(y & ? & ?)].
      * exists x. split; [by left | done].
      * exists y. split; [by right | done].
    + intros (y & [->|?]%elem_of_cons & ->); [by left|].
      right. by exists y.
Qed.

Section Model.

Variables S T D : list node.
Variables supply demand : gmap node Q.
Variable cost : pydict Q.

(** The arcs that occur in the constraints are three-tier arcs. *)
Lemma constraint_vars_model nc v :
  nc ∈ constraints (model S T D supply demand cost) → v ∈ constraint_vars nc.2 →
  ∃ a, three_tier S T D a ∧ v = flow_var a.
Proof.
  simpl. rewrite !elem_of_app, !list_elem_of_fmap.
  unfold constraint_vars, three_tier.
  intros [(i & -> & Hi)|[(j & -> & Hj)|(k & -> & Hk)]]; simpl;
    rewrite elem_of_app.
  - intros [(k & Hk & ->)%lpSum_vars|?%elem_of_nil]; [|done].
    exists (i, k). auto.
  - intros [(k & Hk & ->)%(lpSum_vars (λ k, (k, j)))|?%elem_of_nil]; [|done].
    exists (k, j). auto.
  - intros [(i & Hi & ->)%(lpSum_vars (λ i, (i, k)))
           |(j & Hj & ->)%lpSum_vars].
    + exists (i, k). auto.
    + exists (k, j). auto.
Qed.

(** And every three-tier arc occurs in one. *)
Lemma three_tier_constrained a :
  three_tier S T D a →
  ∃ nc, nc ∈ constraints (model S T D supply demand cost) ∧
        flow_var a ∈ constraint_vars nc.2.
Proof.
  destruct a as [x y]. intros [[Hx Hy]|[Hx Hy]]; simpl in *.
  - exists (supply_row T supply x). split.
    + rewrite !elem_of_app. left. by apply list_elem_of_fmap_2.
    + unfold constraint_vars. simpl. rewrite elem_of_app. left.
      apply (lpSum_vars (λ j, (x, j))). by exists y.
  - exists (demand_row T demand y). split.
    + rewrite !elem_of_app. right. left. by apply list_elem_of_fmap_2.
    + unfold constraint_vars. simpl. rewrite elem_of_app. left.
      apply (lpSum_vars (λ i, (i, y))). by exists x.
Qed.

Lemma terms_objective v c :
  (v, c) ∈ terms (objective (model S T D supply demand cost)) ↔
  ∃ a, cost !! a = Some c ∧ ¬ (c == 0)%Q ∧ v = flow_var a.
Proof.
  simpl. rewrite elem_of_concat. split.
  - intros (l & Hv & Hl). rewrite <- list_fmap_compose in Hl.
    apply list_elem_of_fmap in Hl as ([a c'] & -> & Hin). simpl in Hv.
    apply terms_scale in Hv as (Hc & -> & ->). exists a.
    split; [by apply elem_of_entries | done].
  - intros (a & Hac & Hc & ->). exists (terms (scale c (flow_var a))). split.
    + by apply terms_scale.
    + rewrite <- list_fmap_compose. apply list_elem_of_fmap. exists (a, c).
      split; [done|]. by apply elem_of_entries.
Qed.

Lemma objective_vars_model v :
  v ∈ expr_vars (objective (model S T D supply demand cost)) ↔
  ∃ a c, cost !! a = Some c ∧ ¬ (c == 0)%Q ∧ v = flow_var a.
Proof.
  unfold expr_vars. rewrite list_elem_of_fmap. split.
  - intros ([v' c] & -> & (a & ? & ? & ->)%terms_objective). by exists a, c.
  - intros (a & c & Hac & Hc & ->). exists (flow_var a, c). split; [done|].
    apply terms_objective. by exists a.
Qed.

(** The objective has no term exactly when every cost is 0. *)
Lemma objective_empty :
  terms (objective (model S T D supply demand cost)) = [] ↔
  ∀ a c, cost !! a = Some c → (c == 0)%Q.
Proof.
  split.
  - intros Hnil a c Hac. destruct (Qeq_dec c 0) as [|Hc]; [done|].
    exfalso. eapply (not_elem_of_nil (flow_var a, c)). rewrite <- Hnil.
    apply terms_objective. by exists a.
  - intros Hz.
    destruct (terms (objective (model S T D supply demand cost)))
      as [|[v c] ts] eqn:Ht; [done|].
    assert ((v, c) ∈ terms (objective (model S T D supply demand cost)))
      as Hin by (rewrite Ht; apply list_elem_of_here).
    apply terms_objective in Hin as (a & Hac & Hc & _).
    exfalso. apply Hc. by eapply Hz.
Qed.

Lemma all_vars_model v :
  v ∈ all_vars (model S T D supply demand cost) ↔
  ∃ a, in_model S T D cost a ∧ v = flow_var a.
Proof.
  unfold all_vars, in_model. rewrite elem_of_app, elem_of_concat. split.
  - intros [(vs & Hv & Hvs)|(a & c & Hac & Hc & ->)%objective_vars_model].
    + apply list_elem_of_fmap in Hvs as (nc & -> & Hnc).
      destruct (constraint_vars_model nc v Hnc Hv) as (a & Ha & ->).
      exists a. auto.
    + exists a. split; [|done]. right. by exists c.
  - intros (a & [Ha|(c & Hac & Hc)] & ->).
    + left. destruct (three_tier_constrained a Ha) as (nc & Hnc & Hv).
      exists (constraint_vars nc.2). split; [done|].
      apply list_elem_of_fmap. by exists nc.
    + right. apply objective_vars_model. by exists a, c.
Qed.

Lemma variables_model v :
  v ∈ variables (model S T D supply demand cost) ↔
  ∃ a, in_model S T D cost a ∧ v = flow_var a.
Proof.
  rewrite <- all_vars_model. apply variables_by_id.
  intros v1 v2 (a1 & _ & ->)%all_vars_model (a2 & _ & ->)%all_vars_model.
  by intros ->%flow_var_inj.
Qed.

Lemma in_problem_model a :
  in_problem (model S T D supply demand cost) a = true ↔
  in_model S T D cost a.
Proof.
  rewrite in_problem_spec. split.
  - intros (v & (b & Hb & ->)%all_vars_model & [= ->]). done.
  - intros Ha. exists (flow_var a). split; [|done].
    apply all_vars_model. by exists a.
Qed.

Lemma variables_solved_model v :
  v ∈ variables (solved (model S T D supply demand cost)) ↔
  (∃ a, in_model S T D cost a ∧ v = flow_var a) ∨
  (terms (objective (model S T D supply demand cost)) = [] ∧ v = dummyVar).
Proof.
  rewrite <- all_vars_model, <- all_vars_solved. apply variables_by_id.
  intros v1 v2 [(a1 & _ & ->)%all_vars_model|[_ ->]]%all_vars_solved
               [(a2 & _ & ->)%all_vars_model|[_ ->]]%all_vars_solved;
    try done.
  by intros ->%flow_var_inj.
Qed.

Lemma variables_posed_model v :
  v ∈ variables (posed (model S T D supply demand cost)) ↔
  (∃ a, in_model S T D cost a ∧ v = flow_var a) ∨
  (terms (objective (model S T D supply demand cost)) = [] ∧ v = dummyVar).
Proof.
  rewrite <- all_vars_model, <- all_vars_posed. apply variables_by_id.
  intros v1 v2 [(a1 & _ & ->)%all_vars_model|[_ ->]]%all_vars_posed
               [(a2 & _ & ->)%all_vars_model|[_ ->]]%all_vars_posed;
    try done.
  by intros ->%flow_var_inj.
Qed.

Lemma holds_supply_row σ i :
  holds σ (supply_row T supply i).2 ↔
  (outflow σ i T <= default 0%Q (supply !! i))%Q.
Proof.
  unfold holds, supply_row, outflow. simpl.
  by rewrite (eval_lpSum_vars σ (λ j, (i, j))), eval_of_const.
Qed.

Lemma holds_demand_row σ j :
  holds σ (demand_row T demand j).2 ↔
  (default 0%Q (demand !! j) <= inflow σ T j)%Q.
Proof.
  unfold holds, demand_row, inflow. simpl.
  by rewrite (eval_lpSum_vars σ (λ i, (i, j))), eval_of_const.
Qed.

Lemma holds_transshipment_row σ k :
  holds σ (transshipment_row S D k).2 ↔
  (inflow σ S k == outflow σ k D)%Q.
Proof.
  unfold holds, transshipment_row, inflow, outflow. simpl.
  by rewrite (eval_lpSum_vars σ (λ i, (i, k))),
             (eval_lpSum_vars σ (λ j, (k, j))).
Qed.

Lemma within_bounds_flow_var σ a :
  within_bounds σ (flow_var a) ↔ (0 <= σ a)%Q.
Proof.
  unfold within_bounds. simpl. split.
  - intros [Hl _]. by apply Hl.
  - intros Ha. split; [by intros l [= <-] | done].
Qed.

Lemma within_bounds_dummyVar σ : within_bounds σ dummyVar.
Proof.
  unfold within_bounds. simpl.
  split; intros x [= <-]; apply Qle_refl.
Qed.

Hypothesis Hcomplete : complete S T D supply demand cost.

Lemma three_tier_in_cost a : three_tier S T D a → is_Some (cost !! a).
Proof.
  destruct Hcomplete as (Hst & Htd & _). destruct a as [i j].
  intros [[? ?]|[? ?]]; auto.
Qed.

Lemma in_model_in_cost a : in_model S T D cost a → is_Some (cost !! a).
Proof.
  intros [Ha|(c & Hac & _)]; [by apply three_tier_in_cost | by eexists].
Qed.

(** What the constraints of the model say of a point. *)
Lemma constraints_model σ :
  Forall (λ nc, holds σ nc.2) (constraints (model S T D supply demand cost)) ↔
  supply_limits S T supply σ ∧ demand_met T D demand σ ∧ conserved S T D σ.
Proof.
  simpl. rewrite !Forall_app, !Forall_fmap, !Forall_forall.
  destruct Hcomplete as (_ & _ & Hs & Hd). split.
  - intros (Hsup & Hdem & Htr). repeat split.
    + intros i s Hi Hsi. specialize (Hsup i Hi). simpl in Hsup.
      apply holds_supply_row in Hsup. by rewrite Hsi in Hsup.
    + intros j d Hj Hdj. specialize (Hdem j Hj). simpl in Hdem.
      apply holds_demand_row in Hdem. by rewrite Hdj in Hdem.
    + intros k Hk. specialize (Htr k Hk). simpl in Htr.
      by apply holds_transshipment_row in Htr.
  - intros (Hsup & Hdem & Htr). split; [|split].
    + intros i Hi. simpl. apply holds_supply_row.
      destruct (Hs i Hi) as [s Hsi]. rewrite Hsi. by apply Hsup.
    + intros j Hj. simpl. apply holds_demand_row.
      destruct (Hd j Hj) as [d Hdj]. rewrite Hdj. by apply Hdem.
    + intros k Hk. simpl. apply holds_transshipment_row. by apply Htr.
Qed.

(** A point is feasible for the model exactly when it keeps the supply
    limits, meets the demands, is conserved at the transshipment nodes and
    is nonnegative on the keys whose variable the model has. *)
Lemma lp_feasible_model σ :
  lp_feasible (model S T D supply demand cost) σ ↔
  (∀ a, in_model S T D cost a → (0 <= σ a)%Q) ∧
  supply_limits S T supply σ ∧ demand_met T D demand σ ∧ conserved S T D σ.
Proof.
  unfold lp_feasible. rewrite constraints_model, Forall_forall. split.
  - intros [Hc Hb]. split; [|done]. intros a Ha.
    apply (proj1 (within_bounds_flow_var σ a)).
    apply Hb, variables_model. by exists a.
  - intros [Hnn Hc]. split; [done|].
    intros v (a & Ha & ->)%variables_model.
    apply (proj2 (within_bounds_flow_var σ a)). by apply Hnn.
Qed.

(** The problem the solver is handed has the same feasible points. *)
Lemma lp_feasible_posed_model σ :
  lp_feasible (posed (model S T D supply demand cost)) σ ↔
  lp_feasible (model S T D supply demand cost) σ.
Proof.
  unfold lp_feasible. rewrite constraints_posed, !Forall_forall. split.
  - intros [Hc Hb]. split; [done|]. intros v Hv%variables_model.
    apply Hb, variables_posed_model. by left.
  - intros [Hc Hb]. split; [done|].
    intros v [Hv|[_ ->]]%variables_posed_model.
    + by apply Hb, variables_model.
    + apply within_bounds_dummyVar.
Qed.

Lemma feasible_flow_lp σ :
  feasible_flow S T D supply demand cost σ →
  lp_feasible (model S T D supply demand cost) σ.
Proof.
  intros (Hnn & Hrest). apply lp_feasible_model. split; [|done].
  intros a Ha. by apply Hnn, in_model_in_cost.
Qed.

End Model.

(** ** The flow the variable objects hold after the solve step *)

Lemma total_stored p vals a :
  total (stored (posed p) vals) a
  = if in_problem p a then total vals a else 0%Q.
Proof. unfold total. rewrite stored_posed. by destruct (in_problem p a). Qed.

Section Stored.

Variables S T D : list node.
Variables supply demand : gmap node Q.
Variable cost : pydict Q.
Variable vals : assignment.

Lemma total_stored_three_tier a :
  three_tier S T D a →
  total (stored (posed (model S T D supply demand cost)) vals) a
  = total vals a.
Proof.
  intros Ha. rewrite total_stored.
  rewrite (proj2 (in_problem_model S T D supply demand cost a)); [done|].
  by left.
Qed.

Lemma outflow_stored i :
  i ∈ S →
  outflow (total (stored (posed (model S T D supply demand cost)) vals)) i T
  = outflow (total vals) i T.
Proof.
  intros Hi. unfold outflow. f_equal. apply list_fmap_ext. intros n k Hn.
  apply total_stored_three_tier. left. split; [done|].
  by eapply list_elem_of_lookup_2.
Qed.

Lemma inflow_stored j :
  j ∈ D →
  inflow (total (stored (posed (model S T D supply demand cost)) vals)) T j
  = inflow (total vals) T j.
Proof.
  intros Hj. unfold inflow. f_equal. apply list_fmap_ext. intros n k Hn.
  apply total_stored_three_tier. right. split; [|done].
  by eapply list_elem_of_lookup_2.
Qed.

Lemma inflow_hub_stored k :
  k ∈ T →
  inflow (total (stored (posed (model S T D supply demand cost)) vals)) S k
  = inflow (total vals) S k.
Proof.
  intros Hk. unfold inflow. f_equal. apply list_fmap_ext. intros n i Hn.
  apply total_stored_three_tier. left. split; [|done].
  by eapply list_elem_of_lookup_2.
Qed.

Lemma outflow_hub_stored k :
  k ∈ T →
  outflow (total (stored (posed (model S T D supply demand cost)) vals)) k D
  = outflow (total vals) k D.
Proof.
  intros Hk. unfold outflow. f_equal. apply list_fmap_ext. intros n j Hn.
  apply total_stored_three_tier. right. split; [done|].
  by eapply list_elem_of_lookup_2.
Qed.

Lemma stored_constraints :
  supply_limits S T supply (total vals) ∧ demand_met T D demand (total vals) ∧
  conserved S T D (total vals) →
  supply_limits S T supply
    (total (stored (posed (model S T D supply demand cost)) vals)) ∧
  demand_met T D demand
    (total (stored (posed (model S T D supply demand cost)) vals)) ∧
  conserved S T D
    (total (stored (posed (model S T D supply demand cost)) vals)).
Proof.
  intros (Hsup & Hdem & Hcon). split; [|split].
  - intros i s Hi Hs. rewrite outflow_stored by done. by apply Hsup.
  - intros j d Hj Hd. rewrite inflow_stored by done. by apply Hdem.
  - intros k Hk. rewrite inflow_hub_stored, outflow_hub_stored by done.
    by apply Hcon.
Qed.

(** A feasible point of the model, as the variable objects hold it, is a
    feasible flow. *)
Lemma stored_feasible_flow :
  lp_feasible (model S T D supply demand cost) (total vals) →
  complete S T D supply demand cost →
  feasible_flow S T D supply demand cost
    (total (stored (posed (model S T D supply demand cost)) vals)).
Proof.
  intros Hf Hc. apply lp_feasible_model in Hf as (Hnn & Hrest); [|done].
  split; [|by apply stored_constraints].
  intros a _. rewrite total_stored.
  destruct (in_problem _ a) eqn:Ha; [|apply Qle_refl].
  apply Hnn. by apply in_problem_model in Ha.
Qed.


End Stored.

(** ** The entry point, step by step *)

Lemma solve_transshipment_problem_Ok lib nodes supply demand cost pn pb r :
  solve_transshipment_problem lib nodes supply demand cost pn pb = Ok r ↔
  ∃ p flow st vals,
    build_problem nodes supply demand cost = Ok (p, flow) ∧
    solve lib (posed p) = Ok (st, vals) ∧
    (pn = true →
     plot_transshipment_network lib nodes supply demand cost flow
       (stored (posed p) vals) = Ok ()) ∧
    (pb = true →
     plot_stacked_bar_chart lib flow (stored (posed p) vals) nodes = Ok ()) ∧
    r = returned p vals.
Proof.
  unfold solve_transshipment_problem. rewrite bind_Ok. split.
  - intros ([p flow] & Hb & H). rewrite problem_solve_eq in H.
    apply bind_Ok in H as ([[st vals'] p'] & Hs & H).
    apply bind_Ok in Hs as ([st' vals] & Hs & [= <- <- <-]).
    apply bind_Ok in H as ([] & Hn & H). apply bind_Ok in H as ([] & Hc & [= <-]).
    exists p, flow, st', vals. repeat split; try done.
    + by intros ->.
    + by intros ->.
  - intros (p & flow & st & vals & Hb & Hs & Hn & Hc & ->).
    exists (p, flow). split; [done|]. rewrite problem_solve_eq, Hs. simpl.
    apply bind_Ok. exists (). split.
    { destruct pn; [by apply Hn | done]. }
    apply bind_Ok. exists (). split; [|done].
    destruct pb; [by apply Hc | done].
Qed.

Lemma solve_transshipment_problem_Raise lib nodes supply demand cost pn pb e :
  solve_transshipment_problem lib nodes supply demand cost pn pb = Raise e ↔
  build_problem nodes supply demand cost = Raise e ∨
  ∃ p flow, build_problem nodes supply demand cost = Ok (p, flow) ∧
    (solve lib (posed p) = Raise e ∨
     ∃ st vals, solve lib (posed p) = Ok (st, vals) ∧
       ((pn = true ∧
         plot_transshipment_network lib nodes supply demand cost flow
           (stored (posed p) vals) = Raise e) ∨
        ((pn = true →
          plot_transshipment_network lib nodes supply demand cost flow
            (stored (posed p) vals) = Ok ()) ∧
         pb = true ∧
         plot_stacked_bar_chart lib flow (stored (posed p) vals) nodes
         = Raise e))).
Proof.
  unfold solve_transshipment_problem.
  destruct (build_problem nodes supply demand cost) as [[p flow]|e0]; simpl.
  2: { split; [intros [= <-]; by left|].
       by intros [[= <-]|(? & ? & [=] & _)]. }
  rewrite problem_solve_eq. split.
  - intros H. right. exists p, flow. split; [done|].
    destruct (solve lib (posed p)) as [[st vals]|e1]; simpl in H;
      [|left; congruence].
    right. exists st, vals. split; [done|].
    destruct pn; simpl in H.
    + destruct (plot_transshipment_network _ _ _ _ _ _ _) as [[]|e2];
        simpl in H; [|left; split; congruence].
      right. split; [done|]. destruct pb; simpl in H; [|done].
      destruct (plot_stacked_bar_chart _ _ _ _) as [[]|e3]; simpl in H;
        [done | split; congruence].
    + right. split; [done|]. destruct pb; simpl in H; [|done].
      destruct (plot_stacked_bar_chart _ _ _ _) as [[]|e3]; simpl in H;
        [done | split; congruence].
  - intros [?|(p' & flow' & [= <- <-] & H)]; [done|].
    destruct H as [->|(st & vals & -> & H)]; [done|]. simpl.
    destruct H as [[-> ->]|(Hn & -> & Hc)]; [done|].
    destruct pn; simpl; [rewrite Hn by done; simpl|]; by rewrite Hc.
Qed.

(** Once the model is built and the solver has answered, only the plots
    stand between the answer and the pair that is returned. *)
Lemma run_after_solve lib nodes supply demand cost p flow st vals pn pb :
  build_problem nodes supply demand cost = Ok (p, flow) →
  solve lib (posed p) = Ok (st, vals) →
  solve_transshipment_problem lib nodes supply demand cost pn pb
  = ((if pn
      then plot_transshipment_network lib nodes supply demand cost flow
             (stored (posed p) vals)
      else Ok ());;
     (if pb
      then plot_stacked_bar_chart lib flow (stored (posed p) vals) nodes
      else Ok ());;
     Ok (returned p vals)).
Proof.
  intros Hb Hs. unfold solve_transshipment_problem.
  rewrite Hb. simpl. by rewrite problem_solve_eq, Hs.
Qed.

Lemma run_without_plots lib nodes supply demand cost p flow st vals :
  build_problem nodes supply demand cost = Ok (p, flow) →
  solve lib (posed p) = Ok (st, vals) →
  solve_transshipment_problem lib nodes supply demand cost false false
  = Ok (returned p vals).
Proof. intros Hb Hs. by rewrite (run_after_solve _ _ _ _ _ _ _ _ _ _ _ Hb Hs). Qed.

(** ** The chart routines raise nothing of their own but one [TypeError] *)

Lemma graph_edges_closed cost flow vals :
  (∀ a, is_Some (cost !! a) → is_Some (flow !! a)) →
  mapM (graph_edge cost flow vals) (keys cost)
  = Ok ((λ ac, (ac.1, (ac.2, flow_value flow vals ac.1))) <$> entries cost).
Proof.
  intros Hcov. apply mapM_keys_Ok. intros a c Hac.
  destruct (Hcov a) as [v Hv]; [by eauto|].
  unfold graph_edge, getitem, flow_value. simpl. rewrite Hac, Hv.
  reflexivity.
Qed.

Lemma plot_transshipment_network_Raise lib nodes supply demand cost vals S T D e :
  roles nodes S T D →
  plot_transshipment_network lib nodes supply demand cost (flow_dict cost) vals
  = Raise e →
  raised_by_renderer lib e ∨ e = format_error.
Proof.
  intros (HS & HT & HD)%getitem_roles. unfold plot_transshipment_network.
  rewrite HS, HT, HD. simpl.
  rewrite graph_edges_closed by apply flow_dict_covers. simpl.
  rewrite bind_Raise. intros [H|([] & _ & H)].
  { left. left. eauto. }
  apply bind_Raise in H as [H|(labels & _ & H)].
  { right. apply mapM_Raise in H as (a & Ha & H). unfold edge_label in H.
    apply bind_Raise in H as [[Hnone _]%getitem_Raise|(v & _ & H)].
    - apply elem_of_keys, flow_dict_covers in Ha as [v Hv]. congruence.
    - destruct (varValue vals v); [done|]. by injection H as <-. }
  apply bind_Raise in H as [H|([] & _ & H)].
  - left. right. left. eauto.
  - left. by repeat right.
Qed.

Lemma plot_stacked_bar_chart_Raise lib nodes flow vals S T D e :
  roles nodes S T D →
  plot_stacked_bar_chart lib flow vals nodes = Raise e →
  raised_by_renderer lib e.
Proof.
  intros (HS & HT & HD)%getitem_roles. unfold plot_stacked_bar_chart.
  rewrite HS, HT, HD. simpl.
  rewrite bind_Raise. intros [H|([] & _ & H)].
  { right. right. left. eauto. }
  apply bind_Raise in H as [H|([] & _ & H)]; [by repeat right|].
  apply bind_Raise in H as [H|([] & _ & H)]; [|by repeat right].
  right. right. left. eauto.
Qed.

(** ** The small network *)

Lemma roles_small : roles nodes_small ["F1"] ["XD1"] ["DC1"].
Proof. by vm_compute. Qed.

Lemma cost_small_keys a :
  is_Some (cost_small !! a) ↔ a = ("F1", "XD1") ∨ a = ("XD1", "DC1").
Proof.
  rewrite <- elem_of_keys.
  change (keys cost_small) with [("F1", "XD1"); ("XD1", "DC1")].
  rewrite !elem_of_cons, elem_of_nil. tauto.
Qed.

Lemma cost_free_keys a :
  is_Some (cost_free !! a) ↔
  a = ("F1", "XD1") ∨ a = ("XD1", "DC1") ∨ a = ("F1", "DC1").
Proof.
  rewrite <- elem_of_keys.
  change (keys cost_free) with [("F1", "XD1"); ("XD1", "DC1"); ("F1", "DC1")].
  rewrite !elem_of_cons, elem_of_nil. tauto.
Qed.

Lemma distinct_names_small : distinct_names ["F1"] ["XD1"] ["DC1"].
Proof. repeat split; apply NoDup_singleton. Qed.

Lemma complete_small supply demand :
  is_Some (supply !! "F1") → is_Some (demand !! "DC1") →
  complete ["F1"] ["XD1"] ["DC1"] supply demand cost_small.
Proof.
  intros Hs Hd. repeat split.
  - intros i k ->%list_elem_of_singleton ->%list_elem_of_singleton.
    apply cost_small_keys. by left.
  - intros k j ->%list_elem_of_singleton ->%list_elem_of_singleton.
    apply cost_small_keys. by right.
  - by intros i ->%list_elem_of_singleton.
  - by intros j ->%list_elem_of_singleton.
Qed.

Lemma complete_free :
  complete ["F1"] ["XD1"] ["DC1"] supply_ample demand_small cost_free.
Proof.
  repeat split.
  - intros i k ->%list_elem_of_singleton ->%list_elem_of_singleton.
    apply cost_free_keys. by left.
  - intros k j ->%list_elem_of_singleton ->%list_elem_of_singleton.
    apply cost_free_keys. right. by left.
  - intros i ->%list_elem_of_singleton. eexists. evaluate.
  - intros j ->%list_elem_of_singleton. eexists. evaluate.
Qed.

Lemma build_small supply demand :
  is_Some (supply !! "F1") → is_Some (demand !! "DC1") →
  build_problem nodes_small supply demand cost_small
  = Ok (model ["F1"] ["XD1"] ["DC1"] supply demand cost_small,
        flow_dict cost_small).
Proof.
  intros Hs Hd. apply (build_problem_Ok _ _ _ _ _ _ _ _ _ roles_small).
  split; [|done]. split; [by apply complete_small | apply distinct_names_small].
Qed.

(** What feasibility says on the small network. *)
Lemma feasible_small supply demand s d f :
  supply !! "F1" = Some s → demand !! "DC1" = Some d →
  supply_limits ["F1"] ["XD1"] supply f →
  demand_met ["XD1"] ["DC1"] demand f →
  conserved ["F1"] ["XD1"] ["DC1"] f →
  (f ("F1", "XD1") <= s ∧ d <= f ("XD1", "DC1") ∧
   f ("F1", "XD1") == f ("XD1", "DC1"))%Q.
Proof.
  intros Hs Hd Hsup Hdem Hcon.
  specialize (Hsup "F1" s (list_elem_of_here _ _) Hs).
  specialize (Hdem "DC1" d (list_elem_of_here _ _) Hd).
  specialize (Hcon "XD1" (list_elem_of_here _ _)).
  unfold outflow, inflow in *. simpl in *. repeat split; lra.
Qed.

(** With supply 1 and demand 2 no flow meets the three requirements. *)
Lemma short_supply_no_flow f :
  ¬ (supply_limits ["F1"] ["XD1"] supply_short f ∧
     demand_met ["XD1"] ["DC1"] demand_large f ∧
     conserved ["F1"] ["XD1"] ["DC1"] f).
Proof.
  intros (Hsup & Hdem & Hcon).
  destruct (feasible_small supply_short demand_large 1 2 f
              ltac:(evaluate) ltac:(evaluate) Hsup Hdem Hcon) as (? & ? & ?).
  lra.
Qed.

Lemma p_infeasible_no_point σ : ¬ lp_feasible p_infeasible σ.
Proof.
  unfold p_infeasible.
  rewrite lp_feasible_model
    by (apply complete_small; eexists; evaluate).
  intros (_ & ? & ? & ?). by apply (short_supply_no_flow σ).
Qed.

Lemma posed_small supply demand :
  posed (model ["F1"] ["XD1"] ["DC1"] supply demand cost_small)
  = model ["F1"] ["XD1"] ["DC1"] supply demand cost_small.
Proof. by apply posed_untouched. Qed.

Lemma posed_free : posed p_free = p_free.
Proof. by apply posed_untouched. Qed.

(** On the small network, [shipped 3 3] is an optimum whenever only the
    two arcs have a variable and neither has a negative cost. *)
Lemma small_optimum (cost : pydict Q) (c1 c2 : Q) :
  complete ["F1"] ["XD1"] ["DC1"] supply_ample demand_small cost →
  (∀ a, in_model ["F1"] ["XD1"] ["DC1"] cost a →
        a = ("F1", "XD1") ∨ a = ("XD1", "DC1")) →
  (0 <= c1)%Q → (0 <= c2)%Q →
  (∀ σ, flow_cost cost σ == c1 * σ ("F1", "XD1") + c2 * σ ("XD1", "DC1"))%Q →
  reports_optimum (model ["F1"] ["XD1"] ["DC1"] supply_ample demand_small cost)
    (shipped 3 3).
Proof.
  intros Hc Hkeys Hc1 Hc2 Hcost. split; [|split].
  - intros a Ha%in_problem_model.
    destruct (Hkeys a Ha) as [-> | ->]; eexists; evaluate.
  - apply lp_feasible_model; [done|]. repeat split.
    + intros a Ha. destruct (Hkeys a Ha) as [-> | ->]; by vm_compute.
    + intros i s ->%list_elem_of_singleton [= <-]. by vm_compute.
    + intros j d ->%list_elem_of_singleton [= <-]. by vm_compute.
    + intros k ->%list_elem_of_singleton. by vm_compute.
  - intros σ' Hf. apply lp_feasible_model in Hf as (_ & Hs & Hd & Hk); [|done].
    destruct (feasible_small supply_ample demand_small 5 3 σ'
                ltac:(evaluate) ltac:(evaluate) Hs Hd Hk) as (? & ? & ?).
    change (eval (total (shipped 3 3))
              (objective (model ["F1"] ["XD1"] ["DC1"] supply_ample
                            demand_small cost))
            <= eval σ'
                 (objective (model ["F1"] ["XD1"] ["DC1"] supply_ample
                               demand_small cost)))%Q.
    rewrite !eval_objective, !Hcost.
    change (total (shipped 3 3) ("F1", "XD1")) with 3%Q.
    change (total (shipped 3 3) ("XD1", "DC1")) with 3%Q. nra.
Qed.

Lemma three_tier_small a :
  three_tier ["F1"] ["XD1"] ["DC1"] a ↔
  a = ("F1", "XD1") ∨ a = ("XD1", "DC1").
Proof.
  destruct a as [x y]. unfold three_tier. simpl.
  rewrite !list_elem_of_singleton. split.
  - intros [[-> ->]|[-> ->]]; auto.
  - intros [[= -> ->]|[= -> ->]]; auto.
Qed.

Lemma p_feasible_optimum : reports_optimum p_feasible (shipped 3 3).
Proof.
  apply (small_optimum cost_small 2 4); [| |done|done|].
  - apply complete_small; eexists; evaluate.
  - intros a Ha. apply cost_small_keys.
    apply (in_model_in_cost ["F1"] ["XD1"] ["DC1"] supply_ample demand_small
             cost_small); [|exact Ha].
    apply complete_small; eexists; evaluate.
  - intros σ. unfold flow_cost.
    change (entries cost_small)
      with [(("F1", "XD1"), 2%Q); (("XD1", "DC1"), 4%Q)].
    simpl. ring.
Qed.

Lemma p_free_optimum : reports_optimum p_free (shipped 3 3).
Proof.
  apply (small_optimum cost_free 2 4); [| |done|done|].
  - apply complete_free.
  - intros a [Ha%three_tier_small|(c & Hac & Hc)]; [done|].
    assert (is_Some (cost_free !! a)) as Hk by (by eexists).
    apply cost_free_keys in Hk as [->|[->| ->]]; auto.
    vm_compute in Hac. injection Hac as <-. by destruct Hc.
  - intros σ. unfold flow_cost.
    change (entries cost_free)
      with [(("F1", "XD1"), 2%Q); (("XD1", "DC1"), 4%Q);
            (("F1", "DC1"), 0%Q)].
    simpl. ring.
Qed.



Lemma lib_optimal_contract : solver_contract lib_optimal.
Proof.
  intros p st vals. unfold lib_optimal, oracle. simpl.
  destruct (decide (p = p_feasible)) as [->|]; [|done].
  intros [= <- <-]. split; [intros _; apply p_feasible_optimum | done].
Qed.

Lemma lib_free_contract : solver_contract lib_free.
Proof.
  intros p st vals. unfold lib_free, oracle. simpl.
  destruct (decide (p = p_free)) as [->|]; [|done].
  intros [= <- <-]. split; [intros _; apply p_free_optimum | done].
Qed.

Lemma lib_stalled_contract x y : solver_contract (lib_stalled x y).
Proof.
  intros p st vals. unfold lib_stalled, oracle. simpl.
  destruct (decide (p = p_infeasible)) as [->|]; [|done].
  intros [= <- <-]. split; [done|]. intros _ σ. apply p_infeasible_no_point.
Qed.

Lemma build_feasible :
  build_problem nodes_small supply_ample demand_small cost_small
  = Ok (p_feasible, flow_dict cost_small).
Proof. evaluate. Qed.

Lemma build_infeasible :
  build_problem nodes_small supply_short demand_large cost_small
  = Ok (p_infeasible, flow_dict cost_small).
Proof. evaluate. Qed.

Lemma build_free :
  build_problem nodes_small supply_ample demand_small cost_free
  = Ok (p_free, flow_dict cost_free).
Proof. evaluate. Qed.

Lemma build_without_supply :
  build_problem nodes_small ∅ demand_small cost_small
  = Raise (KeyError (KeyStr "F1")).
Proof. evaluate. Qed.

Lemma solve_feasible :
  solve lib_optimal (posed p_feasible) = Ok (LpStatusOptimal, shipped 3 3).
Proof. evaluate. Qed.

Lemma solve_free :
  solve lib_free (posed p_free) = Ok (LpStatusOptimal, shipped 3 3).
Proof. evaluate. Qed.

Lemma run_feasible pn pb :
  solve_transshipment_problem lib_optimal nodes_small supply_ample
    demand_small cost_small pn pb
  = Ok (table (Some 3%Q) (Some 3%Q), Some 18%Q).
Proof. destruct pn, pb; evaluate. Qed.


(** * The claims *)

(** ** When the solver reports an optimum *)

Section SolvedToOptimality.

Variable lib : Libraries.
Variable nodes : gmap string (list node).
Variables supply demand : gmap node Q.
Variable cost : pydict Q.
Variables S T D : list node.
Variable p : LpProblem.
Variable flow : pydict LpVariable.
Variable vals : assignment.

Hypothesis Hcontract : solver_contract lib.
Hypothesis Hroles : roles nodes S T D.
Hypothesis Hbuild : build_problem nodes supply demand cost = Ok (p, flow).
Hypothesis Hsolve : solve lib (posed p) = Ok (LpStatusOptimal, vals).

Lemma optimum_complete : complete S T D supply demand cost.
Proof.
  by apply (build_problem_Ok _ _ _ _ _ _ _ _ _ Hroles) in Hbuild as [[? _] _].
Qed.

Lemma optimum_model : p = model S T D supply demand cost.
Proof.
  by apply (build_problem_Ok _ _ _ _ _ _ _ _ _ Hroles) in Hbuild
    as (_ & ? & _).
Qed.

Lemma optimum_reported : reports_optimum (posed p) vals.
Proof. by apply (Hcontract (posed p) LpStatusOptimal vals Hsolve). Qed.

Lemma optimum_valued a : in_problem p a = true → is_Some (vals a).
Proof.
  intros Ha. apply optimum_reported. by rewrite in_problem_posed.
Qed.

Lemma optimum_lp_feasible : lp_feasible p (total vals).
Proof.
  destruct optimum_reported as [_ [Hf _]]. rewrite optimum_model in *.
  by apply lp_feasible_posed_model in Hf.
Qed.

Lemma optimum_feasible_flow :
  feasible_flow S T D supply demand cost (total (stored (posed p) vals)).
Proof.
  pose proof optimum_lp_feasible as Hf. rewrite optimum_model in *.
  apply stored_feasible_flow; [done | apply optimum_complete].
Qed.

(** What comes back is the table of the values the variables hold. *)
Lemma optimum_recorded pn pb df tc :
  solve_transshipment_problem lib nodes supply demand cost pn pb
  = Ok (df, tc) →
  recorded df p (total (stored (posed p) vals)) ∧
  tc = value (stored (posed p) vals) (objective (solved p)).
Proof.
  intros (p' & flow' & st & vals' & Hb & Hs & _ & _ & Hr)
    %solve_transshipment_problem_Ok.
  rewrite Hbuild in Hb. injection Hb as <- <-.
  rewrite Hsolve in Hs. injection Hs as <- <-.
  injection Hr as -> ->. split; [|done].
  intros a Ha. destruct (optimum_valued a Ha) as [x Hx].
  unfold results_of. apply list_elem_of_fmap. exists (flow_var a). split.
  - unfold varValue, total. simpl. by rewrite (stored_in _ _ _ Ha), Hx.
  - rewrite optimum_model in *. apply variables_solved_model. left.
    exists a. split; [|done]. by apply in_problem_model in Ha.
Qed.


(** C2 (as amended).  When the solver, meeting its contract, reports
    status Optimal, the flow recorded in the returned [results_df] sends
    from every source [i] to the transshipment nodes at most [supply[i]]
    in total. *)
Theorem supply_limits_hold_when_optimal pn pb df tc :
  solve_transshipment_problem lib nodes supply demand cost pn pb
  = Ok (df, tc) →
  recorded df p (total (stored (posed p) vals)) ∧
  supply_limits S T supply (total (stored (posed p) vals)).
Proof.
  intros [Hrec _]%optimum_recorded. split; [done|].
  apply optimum_feasible_flow.
Qed.

(** C3 (as amended).  When the solver, meeting its contract, reports
    status Optimal, the flow recorded in the returned [results_df] brings
    into every destination [j], from the transshipment nodes, at least
    [demand[j]] in total. *)
Theorem demand_met_when_optimal pn pb df tc :
  solve_transshipment_problem lib nodes supply demand cost pn pb
  = Ok (df, tc) →
  recorded df p (total (stored (posed p) vals)) ∧
  demand_met T D demand (total (stored (posed p) vals)).
Proof.
  intros [Hrec _]%optimum_recorded. split; [done|].
  apply optimum_feasible_flow.
Qed.

(** X19.  When the solver, meeting its contract, reports status Optimal,
    the flow recorded in the returned [results_df] is conserved at every
    transshipment node [k]: what enters [k] from the sources equals what
    leaves [k] for the destinations. *)
Theorem flow_conserved_when_optimal pn pb df tc :
  solve_transshipment_problem lib nodes supply demand cost pn pb
  = Ok (df, tc) →
  recorded df p (total (stored (posed p) vals)) ∧
  conserved S T D (total (stored (posed p) vals)).
Proof.
  intros [Hrec _]%optimum_recorded. split; [done|].
  apply optimum_feasible_flow.
Qed.

End SolvedToOptimality.

(** ** The shape of the model *)

Lemma no_term_when_free S T D supply demand cost a c :
  cost !! a = Some c → (c == 0)%Q →
  ∀ c', (flow_var a, c') ∉ terms (objective (model S T D supply demand cost)).
Proof.
  intros Hac Hc c' (b & Hb & Hc' & Hab)%terms_objective.
  apply flow_var_eq_inj in Hab. subst b. rewrite Hac in Hb.
  injection Hb as <-. done.
Qed.

(** C5 (as amended).  In the model that is built, every variable that
    occurs in a constraint is the flow on a source-to-transshipment or a
    transshipment-to-destination arc; and every key of [cost], of whatever
    shape, gets a variable with lower bound 0, with a term in the objective
    when its cost is not 0 and with none when its cost is 0, and when it is
    not such an arc (a direct source-to-destination arc, for one) its
    variable occurs in no constraint. *)
Theorem constraints_are_three_tier nodes supply demand cost S T D p flow :
  roles nodes S T D →
  build_problem nodes supply demand cost = Ok (p, flow) →
  (∀ nc v, nc ∈ constraints p → v ∈ constraint_vars nc.2 →
           ∃ a, three_tier S T D a ∧ v = flow_var a ∧ flow !! a = Some v) ∧
  (∀ a c, cost !! a = Some c →
          flow !! a = Some (flow_var a) ∧
          lowBound (flow_var a) = Some 0%Q ∧
          (¬ (c == 0)%Q → (flow_var a, c) ∈ terms (objective p)) ∧
          ((c == 0)%Q → ∀ c', (flow_var a, c') ∉ terms (objective p)) ∧
          (¬ three_tier S T D a →
           ∀ nc, nc ∈ constraints p → flow_var a ∉ constraint_vars nc.2)).
Proof.
  intros Hroles ([Hc _] & -> & ->)%(build_problem_Ok _ _ _ _ _ _ _ _ _ Hroles).
  split.
  - intros nc v Hnc Hv.
    destruct (constraint_vars_model S T D supply demand cost nc v Hnc Hv)
      as (a & Ha & ->).
    exists a. split; [done|]. split; [done|].
    apply lookup_flow_dict. split; [|done].
    by eapply three_tier_in_cost.
  - intros a c Hac. split; [|split; [done|split; [|split]]].
    + apply lookup_flow_dict. eauto.
    + intros Hc0. apply terms_objective. by exists a.
    + intros Hc0. by eapply no_term_when_free.
    + intros Hna nc Hnc Hv.
      destruct (constraint_vars_model S T D supply demand cost nc _ Hnc Hv)
        as (a' & Ha' & Heq).
      apply flow_var_eq_inj in Heq. by subst.
Qed.

(** ** The solver's status *)



(** ** Missing entries *)

Lemma missing_not_complete S T D supply demand cost :
  missing_entry S T D supply demand cost →
  ¬ complete S T D supply demand cost.
Proof.
  intros Hm (Hst & Htd & Hs & Hd).
  destruct Hm as [(i & k & Hi & Hk & Hn)|[(k & j & Hk & Hj & Hn)
                 |[(i & Hi & Hn)|(j & Hj & Hn)]]].
  - destruct (Hst i k Hi Hk) as [? ?]. congruence.
  - destruct (Htd k j Hk Hj) as [? ?]. congruence.
  - destruct (Hs i Hi) as [? ?]. congruence.
  - destruct (Hd j Hj) as [? ?]. congruence.
Qed.

(** C7 (as amended).  With the node lists in place, construction succeeds
    exactly when [cost] has a key for every source-transshipment pair and
    every transshipment-destination pair, [supply] an entry for every
    source, [demand] one for every destination, and no list gives two of
    its nodes the same constraint name; and if an entry is missing the call
    raises out of the construction, whatever the solver and the plot flags,
    so before any solve: a [KeyError], or the library's [PulpError] when a
    name is repeated, and a [KeyError] whenever no name is. *)
Theorem missing_entry_raises_KeyError nodes supply demand cost S T D :
  roles nodes S T D →
  ((∃ p flow, build_problem nodes supply demand cost = Ok (p, flow)) ↔
   complete S T D supply demand cost ∧ distinct_names S T D) ∧
  (missing_entry S T D supply demand cost →
   ∃ e, build_problem nodes supply demand cost = Raise e ∧
        (is_KeyError e ∨ is_PulpError e) ∧
        (distinct_names S T D → is_KeyError e) ∧
        ∀ lib pn pb,
          solve_transshipment_problem lib nodes supply demand cost pn pb
          = Raise e).
Proof.
  intros Hroles. split.
  - split.
    + intros (p & flow & Hb).
      by apply (build_problem_Ok _ _ _ _ _ _ _ _ _ Hroles) in Hb as [? _].
    + intros Hc. do 2 eexists.
      by apply (build_problem_Ok _ _ _ _ _ _ _ _ _ Hroles).
  - intros Hm%missing_not_complete.
    destruct (build_problem nodes supply demand cost) as [[p flow]|e] eqn:Hb.
    + by apply (build_problem_Ok _ _ _ _ _ _ _ _ _ Hroles) in Hb as [[? _] _].
    + exists e. split; [done|].
      split; [by eapply build_problem_Raise|].
      split; [intros Hn; by eapply build_problem_KeyError|].
      intros lib pn pb. apply solve_transshipment_problem_Raise. by left.
Qed.

(** ** No validation of the keys of [cost] *)

(** C8 (as amended).  No key of [cost] is checked against the role lists:
    adding to an accepted input any arc [a] at all, so also one whose
    endpoints are in no role list, leaves it accepted; the constraints are
    the same, and [a] has its variable, with lower bound 0; the objective
    has a term for it when its cost is not 0, and none when its cost
    is 0. *)
Theorem stray_cost_key_accepted nodes supply demand cost a c p flow :
  build_problem nodes supply demand cost = Ok (p, flow) →
  ∃ p' flow',
    build_problem nodes supply demand (<[a:=c]> cost) = Ok (p', flow') ∧
    constraints p' = constraints p ∧
    flow' !! a = Some (flow_var a) ∧
    lowBound (flow_var a) = Some 0%Q ∧
    (¬ (c == 0)%Q → (flow_var a, c) ∈ terms (objective p')) ∧
    ((c == 0)%Q → ∀ c', (flow_var a, c') ∉ terms (objective p')).
Proof.
  intros (S & T & D & Hr & ((Hst & Htd & Hs & Hd) & Hn) & -> & ->)
    %build_problem_inv.
  exists (model S T D supply demand (<[a:=c]> cost)), (flow_dict (<[a:=c]> cost)).
  split; [|split; [done|split; [|split; [done|split]]]].
  - apply (build_problem_Ok _ _ _ _ _ _ _ _ _ Hr). split; [|done].
    split; [|done]. repeat split; try done.
    + intros i k Hi Hk. apply lookup_pydict_insert_is_Some. by apply Hst.
    + intros k j Hk Hj. apply lookup_pydict_insert_is_Some. by apply Htd.
  - apply lookup_flow_dict. split; [|done].
    rewrite lookup_pydict_insert_eq. eauto.
  - intros Hc. apply terms_objective. exists a.
    split; [apply lookup_pydict_insert_eq | done].
  - intros Hc. apply (no_term_when_free _ _ _ _ _ _ a c); [|done].
    apply lookup_pydict_insert_eq.
Qed.

(** ** Errors *)

(** C9 (as amended).  Nothing is caught: the call raises [e] exactly when
    one of its steps raises [e].  That step is the construction, and then
    [e] is the [KeyError] of a dictionary lookup or the library's
    [PulpError] for a repeated constraint name; or the solver; or the
    network plot, and then [e] comes out of a renderer or is the
    [TypeError] of formatting a flow value that is [None]; or the bar
    chart, and then [e] comes out of a renderer. *)
Theorem errors_propagate_unchanged lib nodes supply demand cost pn pb e :
  solve_transshipment_problem lib nodes supply demand cost pn pb = Raise e ↔
  (build_problem nodes supply demand cost = Raise e ∧
   (is_KeyError e ∨ is_PulpError e)) ∨
  (∃ p flow, build_problem nodes supply demand cost = Ok (p, flow) ∧
     (solve lib (posed p) = Raise e ∨
      ∃ st vals, solve lib (posed p) = Ok (st, vals) ∧
        ((pn = true ∧
          plot_transshipment_network lib nodes supply demand cost flow
            (stored (posed p) vals) = Raise e ∧
          (raised_by_renderer lib e ∨ e = format_error)) ∨
         ((pn = true →
           plot_transshipment_network lib nodes supply demand cost flow
             (stored (posed p) vals) = Ok ()) ∧
          pb = true ∧
          plot_stacked_bar_chart lib flow (stored (posed p) vals) nodes
          = Raise e ∧
          raised_by_renderer lib e)))).
Proof.
  rewrite solve_transshipment_problem_Raise. split.
  - intros [Hb|(p & flow & Hb & H)].
    { left. split; [done|]. by eapply build_problem_Raise. }
    right. exists p, flow. split; [done|].
    destruct H as [?|(st & vals & Hs & H)]; [by left|].
    right. exists st, vals. split; [done|].
    destruct (build_problem_inv _ _ _ _ _ _ Hb)
      as (S & T & D & Hr & _ & _ & ->).
    destruct H as [[-> Hn]|(Hn & -> & Hc)].
    + left. repeat split; [done|].
      by eapply plot_transshipment_network_Raise.
    + right. repeat split; [done..|].
      by eapply plot_stacked_bar_chart_Raise.
  - intros [[Hb _]|(p & flow & Hb & H)]; [by left|].
    right. exists p, flow. split; [done|].
    destruct H as [?|(st & vals & Hs & H)]; [by left|].
    right. exists st, vals. split; [done|].
    destruct H as [(-> & Hn & _)|(Hn & -> & Hc & _)]; [by left|by right].
Qed.

(** ** The plot flags *)

(** C10 (as amended).  The pair that comes back does not depend on the
    plot flags: whatever two settings of [plot_network] and
    [plot_bar_chart] return, they return the same
    [(results_df, total_cost)], and it is the pair the call with both flags
    off returns.  A plot can only make the call raise instead. *)
Theorem plot_flags_do_not_change_result lib nodes supply demand cost
    pn pb pn' pb' r r' :
  solve_transshipment_problem lib nodes supply demand cost pn pb = Ok r →
  solve_transshipment_problem lib nodes supply demand cost pn' pb' = Ok r' →
  r' = r ∧
  solve_transshipment_problem lib nodes supply demand cost false false = Ok r.
Proof.
  intros (p & flow & st & vals & Hb & Hs & _ & _ & ->)
    %solve_transshipment_problem_Ok.
  intros (p' & flow' & st' & vals' & Hb' & Hs' & _ & _ & ->)
    %solve_transshipment_problem_Ok.
  rewrite Hb in Hb'. injection Hb' as <- <-.
  rewrite Hs in Hs'. injection Hs' as <- <-.
  split; [done|]. by eapply run_without_plots.
Qed.

(** * The claims on the small network *)








Lemma recorded_small supply demand x y :
  recorded (table (Some x) (Some y))
    (model ["F1"] ["XD1"] ["DC1"] supply demand cost_small)
    (total (stored (posed (model ["F1"] ["XD1"] ["DC1"] supply demand
                             cost_small)) (shipped x y))).
Proof.
  intros a Ha. rewrite total_stored, Ha.
  apply in_problem_model in Ha as [Ha%three_tier_small|(c & Hac & _)].
  - destruct Ha as [-> | ->]; [left | right; left].
  - assert (is_Some (cost_small !! a)) as Hk by (by eexists).
    apply cost_small_keys in Hk as [-> | ->]; [left | right; left].
Qed.

Lemma supply_limits_hold_when_optimal_witness :
  solver_contract lib_optimal ∧
  roles nodes_small ["F1"] ["XD1"] ["DC1"] ∧
  build_problem nodes_small supply_ample demand_small cost_small
  = Ok (p_feasible, flow_dict cost_small) ∧
  solve lib_optimal (posed p_feasible) = Ok (LpStatusOptimal, shipped 3 3) ∧
  solve_transshipment_problem lib_optimal nodes_small supply_ample
    demand_small cost_small false false
  = Ok (table (Some 3%Q) (Some 3%Q), Some 18%Q) ∧
  recorded (table (Some 3%Q) (Some 3%Q)) p_feasible
    (total (stored (posed p_feasible) (shipped 3 3))) ∧
  supply_limits ["F1"] ["XD1"] supply_ample
    (total (stored (posed p_feasible) (shipped 3 3))).
Proof.
  split; [exact lib_optimal_contract|]. split; [vm_compute; auto|].
  split; [evaluate|]. split; [evaluate|]. split; [evaluate|].
  exact (supply_limits_hold_when_optimal lib_optimal nodes_small
           supply_ample demand_small cost_small ["F1"] ["XD1"] ["DC1"]
           p_feasible (flow_dict cost_small) (shipped 3 3)
           lib_optimal_contract roles_small build_feasible solve_feasible
           false false _ _ (run_feasible false false)).
Defined.

(** C2 fails as stated: a solver that meets its contract reports the
    short-supply instance infeasible and leaves 2 and 2 in the variables;
    the call returns them, and 2 leaves the plant against a supply of 1. *)
Lemma stalled_solver_exceeds_supply :
  solver_contract (lib_stalled 2 2) ∧
  solve (lib_stalled 2 2) (posed p_infeasible)
  = Ok (LpStatusInfeasible, shipped 2 2) ∧
  solve_transshipment_problem (lib_stalled 2 2) nodes_small supply_short
    demand_large cost_small false false
  = Ok (table (Some 2%Q) (Some 2%Q), Some 12%Q) ∧
  recorded (table (Some 2%Q) (Some 2%Q)) p_infeasible
    (total (stored (posed p_infeasible) (shipped 2 2))) ∧
  supply_short !! "F1" = Some 1%Q ∧
  (outflow (total (stored (posed p_infeasible) (shipped 2 2))) "F1" ["XD1"]
   == 2)%Q ∧
  ¬ supply_limits ["F1"] ["XD1"] supply_short
      (total (stored (posed p_infeasible) (shipped 2 2))).
Proof.
  split; [apply lib_stalled_contract|].
  split; [evaluate|]. split; [evaluate|]. split; [apply recorded_small|].
  split; [evaluate|]. split; [by vm_compute|].
  intros H. specialize (H "F1" 1%Q (list_elem_of_here _ _) eq_refl).
  by vm_compute in H.
Qed.

Lemma demand_met_when_optimal_witness :
  solver_contract lib_optimal ∧
  roles nodes_small ["F1"] ["XD1"] ["DC1"] ∧
  build_problem nodes_small supply_ample demand_small cost_small
  = Ok (p_feasible, flow_dict cost_small) ∧
  solve lib_optimal (posed p_feasible) = Ok (LpStatusOptimal, shipped 3 3) ∧
  solve_transshipment_problem lib_optimal nodes_small supply_ample
    demand_small cost_small false true
  = Ok (table (Some 3%Q) (Some 3%Q), Some 18%Q) ∧
  recorded (table (Some 3%Q) (Some 3%Q)) p_feasible
    (total (stored (posed p_feasible) (shipped 3 3))) ∧
  demand_met ["XD1"] ["DC1"] demand_small
    (total (stored (posed p_feasible) (shipped 3 3))).
Proof.
  split; [exact lib_optimal_contract|]. split; [vm_compute; auto|].
  split; [evaluate|]. split; [evaluate|]. split; [evaluate|].
  exact (demand_met_when_optimal lib_optimal nodes_small
           supply_ample demand_small cost_small ["F1"] ["XD1"] ["DC1"]
           p_feasible (flow_dict cost_small) (shipped 3 3)
           lib_optimal_contract roles_small build_feasible solve_feasible
           false true _ _ (run_feasible false true)).
Defined.

Lemma build_no_hub :
  build_problem nodes_no_hub supply_ample demand_small ∅
  = Ok (p_no_hub, flow_dict ∅).
Proof. evaluate. Qed.

Lemma p_no_hub_no_point σ : ¬ lp_feasible (posed p_no_hub) σ.
Proof.
  unfold p_no_hub. rewrite lp_feasible_posed_model.
  intros [Hc _]. apply Forall_forall with (x := demand_row [] demand_small "DC1")
    in Hc; [by vm_compute in Hc|].
  simpl. apply list_elem_of_further, list_elem_of_here.
Qed.

Lemma lib_no_hub_contract : solver_contract lib_no_hub.
Proof.
  intros p st vals. unfold lib_no_hub, oracle. simpl.
  destruct (decide (p = posed p_no_hub)) as [->|]; [|done].
  intros [= <- <-]. split; [done|]. intros _ σ. apply p_no_hub_no_point.
Qed.

(** C3 fails as stated, whatever the solver: with a plant, a centre that
    asks for 3 and no transshipment node the model is built and the call
    returns as soon as the solver does, and nothing at all flows into the
    centre.  So it is with a solver that meets its contract and reports
    the instance infeasible. *)
Lemma no_hub_misses_demand :
  roles nodes_no_hub ["F1"] [] ["DC1"] ∧
  build_problem nodes_no_hub supply_ample demand_small ∅
  = Ok (p_no_hub, flow_dict ∅) ∧
  (∀ lib st vals,
     solve lib (posed p_no_hub) = Ok (st, vals) →
     solve_transshipment_problem lib nodes_no_hub supply_ample demand_small
       ∅ false false
     = Ok ([("__dummy", None)], None)) ∧
  solver_contract lib_no_hub ∧
  solve lib_no_hub (posed p_no_hub) = Ok (LpStatusInfeasible, λ _, None) ∧
  solve_transshipment_problem lib_no_hub nodes_no_hub supply_ample
    demand_small ∅ false false
  = Ok ([("__dummy", None)], None) ∧
  demand_small !! "DC1" = Some 3%Q ∧
  ∀ f, (inflow f [] "DC1" == 0)%Q ∧ ¬ demand_met [] ["DC1"] demand_small f.
Proof.
  split; [vm_compute; auto|]. split; [exact build_no_hub|].
  split; [|split; [exact lib_no_hub_contract|
           split; [evaluate|split; [evaluate|split; [evaluate|]]]]].
  - intros lib st vals Hs.
    by rewrite (run_without_plots _ _ _ _ _ _ _ _ _ build_no_hub Hs).
  - intros f. split; [reflexivity|].
    intros H. specialize (H "DC1" 3%Q (list_elem_of_here _ _) eq_refl).
    by vm_compute in H.
Qed.

Lemma not_three_tier_direct :
  ¬ three_tier ["F1"] ["XD1"] ["DC1"] ("F1", "DC1").
Proof. by intros [[=]|[=]]%three_tier_small. Qed.

Lemma constraints_are_three_tier_witness :
  roles nodes_small ["F1"] ["XD1"] ["DC1"] ∧
  build_problem nodes_small supply_ample demand_small cost_direct
  = Ok (model ["F1"] ["XD1"] ["DC1"] supply_ample demand_small cost_direct,
        flow_dict cost_direct) ∧
  cost_direct !! ("F1", "DC1") = Some 7%Q ∧ ¬ (7 == 0)%Q ∧
  ¬ three_tier ["F1"] ["XD1"] ["DC1"] ("F1", "DC1") ∧
  (flow_var ("F1", "DC1"), 7%Q)
    ∈ terms (objective (model ["F1"] ["XD1"] ["DC1"] supply_ample
                          demand_small cost_direct)) ∧
  ∀ nc,
    nc ∈ constraints (model ["F1"] ["XD1"] ["DC1"] supply_ample demand_small
                        cost_direct) →
    flow_var ("F1", "DC1") ∉ constraint_vars nc.2.
Proof.
  assert (build_problem nodes_small supply_ample demand_small cost_direct
          = Ok (model ["F1"] ["XD1"] ["DC1"] supply_ample demand_small
                  cost_direct, flow_dict cost_direct)) as Hb by evaluate.
  assert (cost_direct !! ("F1", "DC1") = Some 7%Q) as Hc by evaluate.
  assert (¬ (7 == 0)%Q) as Hne by done.
  split; [vm_compute; auto|]. split; [exact Hb|]. split; [exact Hc|].
  split; [exact Hne|]. split; [exact not_three_tier_direct|].
  destruct (constraints_are_three_tier nodes_small supply_ample demand_small
              cost_direct ["F1"] ["XD1"] ["DC1"] _ _ roles_small Hb)
    as [_ Hkeys].
  destruct (Hkeys ("F1", "DC1") 7%Q Hc) as (_ & _ & Hterm & _ & Hfree).
  split; [exact (Hterm Hne) | exact (Hfree not_three_tier_direct)].
Defined.

(** C5 fails as stated: the direct plant-to-centre arc of cost 0 gets its
    variable, with lower bound 0, yet the objective has no term for it, and
    the problem does not have the variable at all. *)
Lemma free_arc_has_no_objective_term :
  build_problem nodes_small supply_ample demand_small cost_free
  = Ok (p_free, flow_dict cost_free) ∧
  cost_free !! ("F1", "DC1") = Some 0%Q ∧
  ¬ three_tier ["F1"] ["XD1"] ["DC1"] ("F1", "DC1") ∧
  flow_dict cost_free !! ("F1", "DC1") = Some (flow_var ("F1", "DC1")) ∧
  lowBound (flow_var ("F1", "DC1")) = Some 0%Q ∧
  (∀ c, (flow_var ("F1", "DC1"), c) ∉ terms (objective p_free)) ∧
  flow_var ("F1", "DC1") ∉ variables p_free.
Proof.
  split; [evaluate|]. split; [evaluate|].
  split; [exact not_three_tier_direct|]. split; [evaluate|].
  split; [done|]. split.
  - apply (no_term_when_free _ _ _ _ _ _ _ 0%Q); [evaluate | done].
  - intros (a & [Ha|(c & Hac & Hc)] & Heq)%variables_model;
      apply flow_var_eq_inj in Heq; subst a.
    + by apply not_three_tier_direct.
    + vm_compute in Hac. injection Hac as <-. by apply Hc.
Qed.


(** The call returns on the infeasible instance. *)
Example infeasible_run_returns :
  (∀ σ, ¬ lp_feasible p_infeasible σ) ∧
  solve_transshipment_problem (lib_stalled 2 2) nodes_small supply_short
    demand_large cost_small false false
  = Ok (table (Some 2%Q) (Some 2%Q), Some 12%Q).
Proof. split; [exact p_infeasible_no_point | evaluate]. Qed.

Lemma missing_entry_raises_KeyError_witness :
  roles nodes_small ["F1"] ["XD1"] ["DC1"] ∧
  missing_entry ["F1"] ["XD1"] ["DC1"] ∅ demand_small cost_small ∧
  distinct_names ["F1"] ["XD1"] ["DC1"] ∧
  build_problem nodes_small ∅ demand_small cost_small
  = Raise (KeyError (KeyStr "F1")) ∧
  ∃ e, build_problem nodes_small ∅ demand_small cost_small = Raise e ∧
       (is_KeyError e ∨ is_PulpError e) ∧
       (distinct_names ["F1"] ["XD1"] ["DC1"] → is_KeyError e) ∧
       ∀ lib pn pb,
         solve_transshipment_problem lib nodes_small ∅ demand_small
           cost_small pn pb = Raise e.
Proof.
  assert (missing_entry ["F1"] ["XD1"] ["DC1"] ∅ demand_small cost_small)
    as Hm.
  { right. right. left. exists "F1". split; [apply list_elem_of_here|].
    reflexivity. }
  split; [vm_compute; auto|]. split; [exact Hm|].
  split; [exact distinct_names_small|]. split; [evaluate|].
  exact (proj2 (missing_entry_raises_KeyError nodes_small ∅ demand_small
                  cost_small ["F1"] ["XD1"] ["DC1"] roles_small) Hm).
Defined.

(** C7 fails as stated: with the plant listed twice and no entry in
    [demand], the call raises the library's [PulpError] for the repeated
    name [Supply_F1], not a [KeyError], before it ever reads [demand]; and
    with every entry there it raises the same. *)
Lemma repeated_source_raises_PulpError :
  roles nodes_twice ["F1"; "F1"] ["XD1"] ["DC1"] ∧
  missing_entry ["F1"; "F1"] ["XD1"] ["DC1"] supply_ample ∅ cost_small ∧
  (∀ lib pn pb,
     solve_transshipment_problem lib nodes_twice supply_ample ∅ cost_small
       pn pb
     = Raise (PulpError "overlapping constraint names: Supply_F1")) ∧
  complete ["F1"; "F1"] ["XD1"] ["DC1"] supply_ample demand_small cost_small ∧
  build_problem nodes_twice supply_ample demand_small cost_small
  = Raise (PulpError "overlapping constraint names: Supply_F1").
Proof.
  split; [vm_compute; auto|]. split.
  { repeat right. exists "DC1". split; [apply list_elem_of_here | done]. }
  split.
  { intros lib pn pb. apply solve_transshipment_problem_Raise. left. evaluate. }
  split; [|evaluate].
  assert (∀ i : node, i ∈ ["F1"; "F1"] → i = "F1") as Htwice.
  { intros i Hi. rewrite !elem_of_cons, elem_of_nil in Hi.
    by destruct Hi as [->|[->|[]]]. }
  repeat split.
  - intros i k ->%Htwice ->%list_elem_of_singleton. eexists. evaluate.
  - intros k j ->%list_elem_of_singleton ->%list_elem_of_singleton.
    eexists. evaluate.
  - intros i ->%Htwice. eexists. evaluate.
  - intros j ->%list_elem_of_singleton. eexists. evaluate.
Qed.

Lemma stray_cost_key_accepted_witness :
  build_problem nodes_small supply_ample demand_small cost_small
  = Ok (p_feasible, flow_dict cost_small) ∧
  ¬ (9 == 0)%Q ∧
  ∃ p' flow',
    build_problem nodes_small supply_ample demand_small
      (<[("X", "Y") := 9%Q]> cost_small) = Ok (p', flow') ∧
    constraints p' = constraints p_feasible ∧
    flow' !! ("X", "Y") = Some (flow_var ("X", "Y")) ∧
    lowBound (flow_var ("X", "Y")) = Some 0%Q ∧
    (¬ (9 == 0)%Q → (flow_var ("X", "Y"), 9%Q) ∈ terms (objective p')) ∧
    ((9 == 0)%Q → ∀ c', (flow_var ("X", "Y"), c') ∉ terms (objective p')).
Proof.
  split; [evaluate|]. split; [done|].
  exact (stray_cost_key_accepted nodes_small supply_ample demand_small
           cost_small ("X", "Y") 9%Q _ _ build_feasible).
Defined.

(** C8 fails as stated: the free arc between two nodes of no list is
    accepted and gets its variable, but the objective does not include
    it. *)
Lemma free_stray_key_not_in_objective :
  build_problem nodes_small supply_ample demand_small cost_stray
  = Ok (model ["F1"] ["XD1"] ["DC1"] supply_ample demand_small cost_stray,
        flow_dict cost_stray) ∧
  cost_stray !! ("X", "Y") = Some 0%Q ∧
  (∀ n, n ∈ ["F1"; "XD1"; "DC1"] → n ≠ "X" ∧ n ≠ "Y") ∧
  flow_dict cost_stray !! ("X", "Y") = Some (flow_var ("X", "Y")) ∧
  ∀ c, (flow_var ("X", "Y"), c)
         ∉ terms (objective (model ["F1"] ["XD1"] ["DC1"] supply_ample
                               demand_small cost_stray)).
Proof.
  split; [evaluate|]. split; [evaluate|]. split.
  { intros n Hn. rewrite !elem_of_cons, elem_of_nil in Hn.
    destruct Hn as [->|[->|[->|[]]]]; by split. }
  split; [evaluate|].
  apply (no_term_when_free _ _ _ _ _ _ _ 0%Q); [evaluate | done].
Qed.

(** C9 fails as stated: no library operation of [lib_silent] ever raises,
    and still the call raises, from its own lookup [supply[i]]. *)
Lemma KeyError_without_library_error :
  (∀ p e, solve lib_silent p ≠ Raise e) ∧
  (∀ e, ¬ raised_by_renderer lib_silent e) ∧
  solve_transshipment_problem lib_silent nodes_small ∅ demand_small
    cost_small true true = Raise (KeyError (KeyStr "F1")).
Proof.
  split; [done|]. split; [|evaluate].
  intros e [(? & ? & ?)|[(? & ? & ? & ?)|[(? & ? & ? & ?)|?]]]; done.
Qed.

Lemma plot_flags_do_not_change_result_witness :
  solve_transshipment_problem lib_optimal nodes_small supply_ample
    demand_small cost_small true true
  = Ok (table (Some 3%Q) (Some 3%Q), Some 18%Q) ∧
  solve_transshipment_problem lib_optimal nodes_small supply_ample
    demand_small cost_small false true
  = Ok (table (Some 3%Q) (Some 3%Q), Some 18%Q) ∧
  (table (Some 3%Q) (Some 3%Q), Some 18%Q)
  = (table (Some 3%Q) (Some 3%Q), Some 18%Q) ∧
  solve_transshipment_problem lib_optimal nodes_small supply_ample
    demand_small cost_small false false
  = Ok (table (Some 3%Q) (Some 3%Q), Some 18%Q).
Proof.
  split; [evaluate|]. split; [evaluate|].
  exact (plot_flags_do_not_change_result lib_optimal nodes_small supply_ample
           demand_small cost_small true true false true _ _
           (run_feasible true true) (run_feasible false true)).
Defined.

(** C10 fails as stated: with a direct arc of cost 0 the solver, meeting
    its contract, reports Optimal; the call returns its pair when no plot
    is asked for, and with the network plot it raises [TypeError] instead,
    for the variable of the direct arc has no value. *)
Lemma network_plot_changes_outcome :
  solver_contract lib_free ∧
  solve lib_free (posed p_free) = Ok (LpStatusOptimal, shipped 3 3) ∧
  solve_transshipment_problem lib_free nodes_small supply_ample demand_small
    cost_free false false
  = Ok (table (Some 3%Q) (Some 3%Q), Some 18%Q) ∧
  solve_transshipment_problem lib_free nodes_small supply_ample demand_small
    cost_free true false
  = Raise format_error ∧
  solve_transshipment_problem lib_free nodes_small supply_ample demand_small
    cost_free true true
  = Raise format_error.
Proof.
  split; [exact lib_free_contract|]. repeat split; evaluate.
Qed.

(** * Further properties of the three routines *)

(** ** The constraints, in order *)

(** X1.  The model has one constraint per source, then one per
    destination, then one per transshipment node, in the order of the
    lists: [Supply_i] of sense [<=], [Demand_j] of sense [>=] and
    [Transshipment_k] of sense [==], each node name with its characters
    [-+[] ->/] replaced by underscores. *)
Theorem constraints_in_order nodes supply demand cost S T D p flow :
  roles nodes S T D →
  build_problem nodes supply demand cost = Ok (p, flow) →
  (λ nc, (nc.1, c_sense nc.2)) <$> constraints p
  = (((λ i, (("Supply_" ++ sanitise i)%string, LpConstraintLE)) <$> S)
       ++ ((λ j, (("Demand_" ++ sanitise j)%string, LpConstraintGE)) <$> D)
       ++ ((λ k, (("Transshipment_" ++ sanitise k)%string, LpConstraintEQ))
             <$> T))%list.
Proof.
  intros Hroles (_ & -> & _)%(build_problem_Ok _ _ _ _ _ _ _ _ _ Hroles).
  simpl. by rewrite !fmap_app, <- !list_fmap_compose.
Qed.

(** ** The table that comes back *)

Lemma add_variables_NoDup seen vs :
  NoDup (var_id <$> seen) → NoDup (var_id <$> add_variables seen vs).
Proof.
  revert seen. induction vs as [|v vs IH]; intros seen Hnd; simpl; [done|].
  destruct (decide _) as [Hin|Hout]; apply IH; [done|].
  rewrite fmap_app. apply NoDup_app. split; [done|].
  split; [|apply NoDup_singleton].
  intros x Hx ->%list_elem_of_singleton. done.
Qed.

Lemma insert_by_name_Permutation v l : insert_by_name v l ≡ₚ v :: l.
Proof.
  induction l as [|w l IH]; simpl; [done|].
  destruct (String.leb _ _); [done|]. rewrite IH. apply Permutation_swap.
Qed.

Lemma sort_by_name_Permutation l : sort_by_name l ≡ₚ l.
Proof.
  induction l as [|v l IH]; simpl; [done|].
  by rewrite insert_by_name_Permutation, IH.
Qed.

Lemma variables_NoDup p : NoDup (var_id <$> variables p).
Proof.
  unfold variables. rewrite sort_by_name_Permutation.
  apply add_variables_NoDup. simpl. apply NoDup_nil_2.
Qed.



(** ** The total cost *)


(** X4.  With an empty [cost] the call, when it returns, returns the one
    row of [__dummy] without a value, and no total cost. *)
Theorem empty_cost_gives_dummy_row lib nodes supply demand pn pb df tc :
  solve_transshipment_problem lib nodes supply demand ∅ pn pb = Ok (df, tc) →
  df = [("__dummy", None)] ∧ tc = None.
Proof.
  intros (p & flow & st & vals & Hb & Hs & _ & _ & Hr)
    %solve_transshipment_problem_Ok.
  injection Hr as -> ->.
  destruct (build_problem_inv _ _ _ _ _ _ Hb)
    as (S & T & D & _ & [Hc _] & -> & _).
  assert (terms (objective (model S T D supply demand ∅)) = []) as Hnil
    by (by apply (proj2 (objective_empty S T D supply demand ∅))).
  assert (∀ v, v ∈ variables (solved (model S T D supply demand ∅)) ↔
               v = dummyVar) as Hvars.
  { intros v. rewrite variables_solved_model. split.
    - intros [(a & Ha & _)|[_ ->]]; [|done].
      by apply (in_model_in_cost _ _ _ _ _ _ Hc) in Ha as [? ?].
    - intros ->. by right. }
  split.
  - unfold results_of.
    pose proof (variables_NoDup (solved (model S T D supply demand ∅))) as Hnd.
    destruct (variables (solved (model S T D supply demand ∅)))
      as [|v [|w vs]] eqn:Hl.
    + exfalso. eapply not_elem_of_nil. by apply (Hvars dummyVar).
    + rewrite (proj1 (Hvars v)) by apply list_elem_of_here. done.
    + exfalso. rewrite (proj1 (Hvars v)) in Hnd by apply list_elem_of_here.
      rewrite (proj1 (Hvars w)) in Hnd
        by apply list_elem_of_further, list_elem_of_here.
      rewrite !fmap_cons in Hnd. apply NoDup_cons in Hnd as [Hnd _].
      apply Hnd, list_elem_of_here.
  - apply value_None. exists dummyVar. split; [|done].
    apply objective_vars_solved. by right.
Qed.

(** ** What the model means *)

(** X5.  The model says what the transshipment problem asks: a point is
    feasible for it exactly when it keeps the supply limits, meets the
    demands, is conserved at the transshipment nodes and is nonnegative on
    every key that is an arc of the three tiers or has a cost other than 0;
    and the objective at a point is the sum over the keys of [cost] of
    [cost[i,j]] times the flow on [(i, j)]. *)
Theorem model_means_transshipment nodes supply demand cost S T D p flow σ :
  roles nodes S T D →
  build_problem nodes supply demand cost = Ok (p, flow) →
  (lp_feasible p σ ↔
   (∀ a, in_model S T D cost a → (0 <= σ a)%Q) ∧
   supply_limits S T supply σ ∧ demand_met T D demand σ ∧
   conserved S T D σ) ∧
  (eval σ (objective p) == flow_cost cost σ)%Q.
Proof.
  intros Hroles ([Hc _] & -> & _)%(build_problem_Ok _ _ _ _ _ _ _ _ _ Hroles).
  split; [by apply lp_feasible_model|].
  exact (eval_objective S T D supply demand cost σ).
Qed.

Lemma Qsum_le {A} (f g : A → Q) l :
  (∀ x, x ∈ l → (f x <= g x)%Q) → (Qsum (f <$> l) <= Qsum (g <$> l))%Q.
Proof.
  induction l as [|x l IH]; intros Hfg; simpl; [apply Qle_refl|].
  apply Qplus_le_compat.
  - apply Hfg, list_elem_of_here.
  - apply IH. intros y Hy. by apply Hfg, list_elem_of_further.
Qed.

Lemma Qsum_zero {A} (l : list A) : (Qsum ((λ _, 0) <$> l) == 0)%Q.
Proof.
  induction l as [|x l IH]; [reflexivity|].
  rewrite fmap_cons, Qsum_cons, IH. apply Qplus_0_l.
Qed.

Lemma Qsum_plus {A} (f g : A → Q) l :
  (Qsum ((λ x, f x + g x) <$> l) == Qsum (f <$> l) + Qsum (g <$> l))%Q.
Proof.
  induction l as [|x l IH]; [simpl; by rewrite Qplus_0_l|].
  rewrite !fmap_cons, !Qsum_cons, IH. ring.
Qed.

Lemma Qsum_swap {A B} (f : A → B → Q) xs ys :
  (Qsum ((λ x, Qsum ((λ y, f x y) <$> ys)) <$> xs)
   == Qsum ((λ y, Qsum ((λ x, f x y) <$> xs)) <$> ys))%Q.
Proof.
  induction xs as [|x xs IH].
  - simpl. by rewrite Qsum_zero.
  - rewrite fmap_cons, Qsum_cons, IH.
    rewrite <- (Qsum_plus (f x) (λ y, Qsum ((λ x', f x' y) <$> xs)) ys).
    apply Qsum_fmap_ext. intros y _. by rewrite fmap_cons, Qsum_cons.
Qed.

(** What goes through the network, counted at its three layers. *)
Lemma throughput S T D supply demand cost σ :
  complete S T D supply demand cost →
  supply_limits S T supply σ → demand_met T D demand σ → conserved S T D σ →
  (total_demand D demand <= total_supply S supply)%Q.
Proof.
  intros (_ & _ & Hs & Hd) Hsup Hdem Hcon.
  unfold total_demand, total_supply.
  apply Qle_trans with (Qsum ((λ j, inflow σ T j) <$> D)).
  { apply Qsum_le. intros j Hj. destruct (Hd j Hj) as [d Hdj].
    rewrite Hdj. simpl. by apply Hdem. }
  apply Qle_trans with (Qsum ((λ i, outflow σ i T) <$> S)).
  2: { apply Qsum_le. intros i Hi. destruct (Hs i Hi) as [s Hsi].
       rewrite Hsi. simpl. by apply Hsup. }
  apply Qle_lteq. right. unfold inflow, outflow.
  rewrite (Qsum_swap (λ j k, σ (k, j)) D T).
  rewrite (Qsum_swap (λ i k, σ (i, k)) S T).
  apply Qsum_fmap_ext. intros k Hk. symmetry. by apply Hcon.
Qed.

(** X6.  When the supply of all sources is strictly below the demand of
    all destinations, the model that is built has no feasible point. *)
Theorem shortage_is_infeasible nodes supply demand cost S T D p flow :
  roles nodes S T D →
  build_problem nodes supply demand cost = Ok (p, flow) →
  (total_supply S supply < total_demand D demand)%Q →
  ∀ σ, ¬ lp_feasible p σ.
Proof.
  intros Hroles ([Hc _] & -> & _)%(build_problem_Ok _ _ _ _ _ _ _ _ _ Hroles).
  intros Hlt σ (_ & Hsup & Hdem & Hcon)%lp_feasible_model; [|done].
  pose proof (throughput _ _ _ _ _ _ _ Hc Hsup Hdem Hcon) as Hle.
  by apply Qle_not_lt in Hle.
Qed.

(** X7.  With no transshipment node nothing can be delivered: as soon as
    one destination has a positive demand, the model that is built has no
    feasible point. *)
Theorem no_transshipment_no_delivery nodes supply demand cost S D p flow j d :
  roles nodes S [] D →
  build_problem nodes supply demand cost = Ok (p, flow) →
  j ∈ D → demand !! j = Some d → (0 < d)%Q →
  ∀ σ, ¬ lp_feasible p σ.
Proof.
  intros Hroles ([Hc _] & -> & _)%(build_problem_Ok _ _ _ _ _ _ _ _ _ Hroles).
  intros Hj Hd Hpos σ (_ & _ & Hdem & _)%lp_feasible_model; [|done].
  specialize (Hdem j d Hj Hd). unfold inflow in Hdem. simpl in Hdem.
  by apply Qle_not_lt in Hdem.
Qed.

(** ** What is read, and what is not *)

Lemma foldM_ext {A St} (f g : St → A → result St) s l :
  (∀ s' x, x ∈ l → f s' x = g s' x) → foldM f s l = foldM g s l.
Proof.
  revert s. induction l as [|x l IH]; intros s Hfg; simpl; [done|].
  rewrite (Hfg s x) by apply list_elem_of_here.
  destruct (g s x) as [s'|e]; simpl; [|done].
  apply IH. intros s'' y Hy. by apply Hfg, list_elem_of_further.
Qed.

Lemma build_problem_reads nodes supply supply' demand demand' cost S T D :
  roles nodes S T D →
  (∀ i, i ∈ S → supply !! i = supply' !! i) →
  (∀ j, j ∈ D → demand !! j = demand' !! j) →
  build_problem nodes supply demand cost
  = build_problem nodes supply' demand' cost.
Proof.
  intros (HS & HT & HD)%getitem_roles Hs Hd. unfold build_problem.
  rewrite HS, HT, HD. simpl. rewrite objective_terms_Ok. simpl.
  rewrite (foldM_ext (supply_body (flow_dict cost) supply T)
             (supply_body (flow_dict cost) supply' T)).
  2: { intros q i Hi. unfold supply_body, getitem. by rewrite (Hs i Hi). }
  destruct (foldM _ _ S) as [q|e]; simpl; [|done].
  rewrite (foldM_ext (demand_body (flow_dict cost) demand T)
             (demand_body (flow_dict cost) demand' T)); [done|].
  intros q' j Hj. unfold demand_body, getitem. by rewrite (Hd j Hj).
Qed.

(** X8.  Only the [supply] of the listed sources and the [demand] of the
    listed destinations are ever read: two calls whose dictionaries agree
    on these nodes behave alike, whatever else the dictionaries hold. *)
Theorem only_listed_nodes_are_read lib nodes supply supply' demand demand'
    cost S T D pn pb :
  roles nodes S T D →
  (∀ i, i ∈ S → supply !! i = supply' !! i) →
  (∀ j, j ∈ D → demand !! j = demand' !! j) →
  solve_transshipment_problem lib nodes supply demand cost pn pb
  = solve_transshipment_problem lib nodes supply' demand' cost pn pb.
Proof.
  intros Hroles Hs Hd. unfold solve_transshipment_problem.
  by rewrite (build_problem_reads _ _ _ _ _ _ _ _ _ Hroles Hs Hd).
Qed.

(** ** Names *)

(** X9.  The names [flow_i_j] do not tell the keys apart: the two
    different keys [(i_j, k)] and [(i, j_k)] get variables of the same
    name. *)
Theorem variable_names_collide (i j k : node) :
  ((i ++ "_" ++ j)%string, k) ≠ (i, (j ++ "_" ++ k)%string) ∧
  var_name (flow_var ((i ++ "_" ++ j)%string, k))
  = var_name (flow_var (i, (j ++ "_" ++ k)%string)).
Proof.
  split.
  - intros [= Hi _]. apply (f_equal String.length) in Hi.
    rewrite !string_app_length in Hi. simpl in Hi. lia.
  - unfold flow_var, LpVariable_new. cbn [var_name fst snd].
    by rewrite !string_app_assoc.
Qed.

Lemma flow_lookup_None cost a e :
  getitem KeyArc (flow_dict cost) a = Raise e → cost !! a = None.
Proof.
  intros [Hn _]%getitem_Raise. destruct (cost !! a) as [c|] eqn:Hc; [|done].
  destruct (flow_dict_covers cost a) as [v Hv]; [by eexists | congruence].
Qed.

(** A [KeyError] out of the construction comes from an entry that is
    missing. *)
Lemma build_problem_KeyError_missing nodes supply demand cost S T D e :
  roles nodes S T D →
  build_problem nodes supply demand cost = Raise e → is_KeyError e →
  missing_entry S T D supply demand cost.
Proof.
  intros (HS & HT & HD)%getitem_roles. unfold build_problem.
  rewrite HS, HT, HD. simpl. rewrite objective_terms_Ok. simpl.
  rewrite bind_Raise. intros [H|(p1 & _ & H)] Hk.
  { apply foldM_Raise in H as (p & i & Hi & H). unfold supply_body in H.
    apply bind_Raise in H as [H|(? & _ & H)].
    { apply mapM_Raise in H as (k & Hkt & H%flow_lookup_None).
      left. by exists i, k. }
    apply bind_Raise in H as [[Hn _]%getitem_Raise|(? & _ & H)].
    { right. right. left. by exists i. }
    apply add_constraint_Raise in H as [_ ->]. by destruct Hk. }
  apply bind_Raise in H as [H|(p2 & _ & H)].
  { apply foldM_Raise in H as (p & j & Hj & H). unfold demand_body in H.
    apply bind_Raise in H as [H|(? & _ & H)].
    { apply mapM_Raise in H as (k & Hkt & H%flow_lookup_None).
      right. left. by exists k, j. }
    apply bind_Raise in H as [[Hn _]%getitem_Raise|(? & _ & H)].
    { repeat right. by exists j. }
    apply add_constraint_Raise in H as [_ ->]. by destruct Hk. }
  apply bind_Raise in H as [H|(p3 & _ & ?)]; [|done].
  apply foldM_Raise in H as (p & k & Hkt & H). unfold transshipment_body in H.
  apply bind_Raise in H as [H|(? & _ & H)].
  { apply mapM_Raise in H as (i & Hi & H%flow_lookup_None).
    left. by exists i, k. }
  apply bind_Raise in H as [H|(? & _ & H)].
  { apply mapM_Raise in H as (j & Hj & H%flow_lookup_None).
    right. left. by exists k, j. }
  apply add_constraint_Raise in H as [_ ->]. by destruct Hk.
Qed.

(** X20.  When every entry is there but two nodes of one list get the
    same constraint name (a node listed twice, or two names that differ
    only in characters the library replaces), the call raises the library's
    [PulpError], whatever the solver and the plot flags. *)
Theorem repeated_name_is_refused nodes supply demand cost S T D :
  roles nodes S T D →
  complete S T D supply demand cost →
  ¬ distinct_names S T D →
  ∃ msg, ∀ lib pn pb,
    solve_transshipment_problem lib nodes supply demand cost pn pb
    = Raise (PulpError msg).
Proof.
  intros Hroles Hc Hn.
  destruct (build_problem nodes supply demand cost) as [[p flow]|e] eqn:Hb.
  { by apply (build_problem_Ok _ _ _ _ _ _ _ _ _ Hroles) in Hb as [[_ ?] _]. }
  destruct (build_problem_Raise _ _ _ _ _ Hb) as [Hk|[msg ->]].
  - exfalso. eapply missing_not_complete; [|exact Hc].
    by eapply build_problem_KeyError_missing.
  - exists msg. intros lib pn pb.
    apply solve_transshipment_problem_Raise. by left.
Qed.

Lemma sanitise_char_legal c : sanitise_char c ∉ illegal_chars.
Proof.
  unfold sanitise_char.
  destruct (existsb (Ascii.eqb c) illegal_chars) eqn:Hc.
  - intros H%list_elem_of_In. vm_compute in H. intuition discriminate.
  - intros Hin. apply not_true_iff_false in Hc. apply Hc.
    apply existsb_exists. exists c. split; [by apply list_elem_of_In|].
    apply Ascii.eqb_refl.
Qed.

Lemma sanitise_legal s : legal_name (sanitise s).
Proof.
  unfold legal_name. induction s as [|c s IH]; simpl; [constructor|].
  constructor; [apply sanitise_char_legal | exact IH].
Qed.

(** X21.  In the model that is built no name keeps a character the
    library replaces: neither the name of the variable of a key of [cost]
    nor the name of a constraint. *)
Theorem names_are_rewritten nodes supply demand cost p flow :
  build_problem nodes supply demand cost = Ok (p, flow) →
  (∀ a v, flow !! a = Some v → legal_name (var_name v)) ∧
  (∀ nc, nc ∈ constraints p → legal_name nc.1).
Proof.
  intros (S & T & D & _ & _ & -> & ->)%build_problem_inv. split.
  - intros a v [_ ->]%lookup_flow_dict. apply sanitise_legal.
  - intros nc. simpl. rewrite !elem_of_app, !list_elem_of_fmap.
    intros [(i & -> & _)|[(j & -> & _)|(k & -> & _)]]; apply sanitise_legal.
Qed.

(** ** The network plot *)

Lemma mapM_first_Raise {A B} (f : A → result B) l :
  (∃ x, x ∈ l ∧ ∃ e, f x = Raise e) →
  ∃ x e, x ∈ l ∧ f x = Raise e ∧ mapM f l = Raise e.
Proof.
  induction l as [|x l IH]; intros (y & Hy & e & He).
  { by apply elem_of_nil in Hy. }
  simpl. destruct (f x) as [b|e'] eqn:Hx.
  - apply elem_of_cons in Hy as [->|Hy]; [congruence|].
    destruct IH as (z & e'' & Hz & Hfz & Hm); [by eauto|].
    exists z, e''. split; [by apply list_elem_of_further|]. split; [done|].
    simpl. by rewrite Hm.
  - exists x, e'. split; [apply list_elem_of_here|]. by split.
Qed.

Lemma valued_is_covered (cost : pydict Q) (flow : pydict LpVariable)
    (vals : assignment) :
  (∀ a, is_Some (cost !! a) → is_Some (flow_value flow vals a)) →
  ∀ a, is_Some (cost !! a) → is_Some (flow !! a).
Proof.
  intros Hval a [x Hx]%Hval. unfold flow_value in Hx.
  destruct (flow !! a); [by eauto | done].
Qed.

Lemma edge_labels_closed lib cost flow vals :
  (∀ a, is_Some (cost !! a) → is_Some (flow_value flow vals a)) →
  mapM (edge_label lib flow vals) (keys cost)
  = Ok (network_labels lib cost flow vals).
Proof.
  intros Hval. apply mapM_keys_Ok. intros a c Hac.
  destruct (Hval a) as [x Hx]; [by eauto|].
  unfold flow_value in *. unfold edge_label, getitem. simpl.
  destruct (flow !! a) as [v|]; [|done]. simpl in *. rewrite Hx.
  reflexivity.
Qed.

Lemma edge_labels_stuck (lib : Libraries) (cost : pydict Q)
    (flow : pydict LpVariable) (vals : assignment) :
  (∀ a, is_Some (cost !! a) → is_Some (flow !! a)) →
  (∃ a, is_Some (cost !! a) ∧ flow_value flow vals a = None) →
  mapM (edge_label lib flow vals) (keys cost) = Raise format_error.
Proof.
  intros Hcov (a & Ha & Hnone).
  destruct (mapM_first_Raise (edge_label lib flow vals) (keys cost))
    as (a' & e & Ha' & He & ->).
  - exists a. split; [by apply elem_of_keys|].
    exists format_error. unfold edge_label, getitem.
    unfold flow_value in Hnone. destruct (Hcov a) as [v Hv]; [done|].
    rewrite Hv in *. simpl in *. by rewrite Hnone.
  - f_equal. unfold edge_label, getitem in He.
    apply elem_of_keys in Ha'.
    destruct (Hcov a') as [v Hv]; [done|].
    rewrite Hv in He. simpl in He.
    destruct (varValue vals v); [done | by injection He].
Qed.

Lemma network_plot_closed lib nodes supply demand cost flow vals S T D :
  roles nodes S T D →
  (∀ a, is_Some (cost !! a) → is_Some (flow_value flow vals a)) →
  plot_transshipment_network lib nodes supply demand cost flow vals
  = (draw_networkx lib (network_graph S T D cost flow vals) pos;;
     draw_networkx_edge_labels lib (network_graph S T D cost flow vals) pos
       (network_labels lib cost flow vals);;
     show lib).
Proof.
  intros (HS & HT & HD)%getitem_roles Hval.
  unfold plot_transshipment_network. rewrite HS, HT, HD. simpl.
  rewrite graph_edges_closed by by eapply valued_is_covered.
  simpl. fold (network_graph S T D cost flow vals).
  by rewrite edge_labels_closed.
Qed.

Lemma network_plot_stuck lib nodes supply demand cost flow vals S T D :
  roles nodes S T D →
  (∀ a, is_Some (cost !! a) → is_Some (flow !! a)) →
  (∃ a, is_Some (cost !! a) ∧ flow_value flow vals a = None) →
  plot_transshipment_network lib nodes supply demand cost flow vals
  = (draw_networkx lib (network_graph S T D cost flow vals) pos;;
     Raise format_error).
Proof.
  intros (HS & HT & HD)%getitem_roles Hcov Hnone.
  unfold plot_transshipment_network. rewrite HS, HT, HD. simpl.
  rewrite graph_edges_closed by done.
  simpl. fold (network_graph S T D cost flow vals).
  by rewrite edge_labels_stuck.
Qed.

(** X10.  When [flow] holds a variable with a value for every key of
    [cost], the network plot draws the graph made of the nodes of the three
    lists and of one edge per key of [cost], whatever the roles of its
    ends, then the edge labels, one per key, and shows the figure; it fails
    only if one of these three renderings does. *)
Theorem network_plot_draws_every_key lib nodes supply demand cost flow vals
    S T D :
  roles nodes S T D →
  (∀ a, is_Some (cost !! a) → is_Some (flow_value flow vals a)) →
  plot_transshipment_network lib nodes supply demand cost flow vals
  = (draw_networkx lib (network_graph S T D cost flow vals) pos;;
     draw_networkx_edge_labels lib (network_graph S T D cost flow vals) pos
       (network_labels lib cost flow vals);;
     show lib).
Proof. apply network_plot_closed. Qed.

(** X11.  When [flow] has every key of [cost] but one of the values is
    [None], the network plot draws the graph and then raises [TypeError]
    while formatting the labels: no edge label is drawn and the figure is
    not shown. *)
Theorem network_plot_cannot_format_None lib nodes supply demand cost flow
    vals S T D :
  roles nodes S T D →
  (∀ a, is_Some (cost !! a) → is_Some (flow !! a)) →
  (∃ a, is_Some (cost !! a) ∧ flow_value flow vals a = None) →
  plot_transshipment_network lib nodes supply demand cost flow vals
  = (draw_networkx lib (network_graph S T D cost flow vals) pos;;
     Raise format_error).
Proof. apply network_plot_stuck. Qed.

Lemma graph_edge_missing (cost : pydict Q) (flow : pydict LpVariable) vals a :
  is_Some (cost !! a) → flow !! a = None →
  graph_edge cost flow vals a = Raise (KeyError (KeyArc a)).
Proof.
  intros [c Hc] Hn. unfold graph_edge, getitem. by rewrite Hc, Hn.
Qed.

Lemma graph_edge_present (cost : pydict Q) (flow : pydict LpVariable) vals a :
  is_Some (cost !! a) → is_Some (flow !! a) →
  ∃ r, graph_edge cost flow vals a = Ok r.
Proof.
  intros [c Hc] [v Hv]. unfold graph_edge, getitem. rewrite Hc, Hv.
  by eexists.
Qed.

Lemma graph_edges_missing (cost : pydict Q) (flow : pydict LpVariable) l :
  (∀ a, a ∈ l → is_Some (cost !! a)) →
  (∃ a, a ∈ l ∧ flow !! a = None) →
  ∃ a, a ∈ l ∧ flow !! a = None ∧
       ∀ vals, mapM (graph_edge cost flow vals) l = Raise (KeyError (KeyArc a)).
Proof.
  induction l as [|x l IH]; intros Hcost (a & Ha & Hnone).
  { by apply elem_of_nil in Ha. }
  pose proof (Hcost x (list_elem_of_here _ _)) as Hc.
  destruct (flow !! x) as [v|] eqn:Hx.
  - apply elem_of_cons in Ha as [->|Ha]; [congruence|].
    destruct IH as (b & Hb & Hbn & Hm).
    { intros y Hy. by apply Hcost, list_elem_of_further. }
    { by eauto. }
    exists b. split; [by apply list_elem_of_further|]. split; [done|].
    intros vals. cbn [mapM].
    destruct (graph_edge_present cost flow vals x Hc) as [r ->]; [by eauto|].
    simpl. by rewrite Hm.
  - exists x. split; [apply list_elem_of_here|]. split; [done|].
    intros vals. cbn [mapM].
    by rewrite (graph_edge_missing cost flow vals x Hc Hx).
Qed.

(** X12.  When [flow] lacks a key of [cost], the network plot raises
    [KeyError] on such a key while it collects the edges, before anything
    is drawn: whatever the renderers and the values. *)
Theorem network_plot_needs_every_flow nodes cost flow S T D :
  roles nodes S T D →
  (∃ a, is_Some (cost !! a) ∧ flow !! a = None) →
  ∃ a, is_Some (cost !! a) ∧ flow !! a = None ∧
       ∀ lib supply demand vals,
         plot_transshipment_network lib nodes supply demand cost flow vals
         = Raise (KeyError (KeyArc a)).
Proof.
  intros (HS & HT & HD)%getitem_roles (a & Hac & Hnone).
  destruct (graph_edges_missing cost flow (keys cost))
    as (b & Hb & Hbn & Hm).
  { intros x Hx. by apply elem_of_keys. }
  { exists a. split; [by apply elem_of_keys | done]. }
  exists b. split; [by apply elem_of_keys|]. split; [done|].
  intros lib supply demand vals.
  unfold plot_transshipment_network. rewrite HS, HT, HD. simpl.
  by rewrite Hm.
Qed.

(** ** The bar charts *)

Lemma filter_from_listed (rows : list (arc * option Q)) (froms : list node) s :
  s ∈ froms →
  filter (λ r, r.1.1 = s) (filter (λ r, r.1.1 ∈ froms) rows)
  = filter (λ r, r.1.1 = s) rows.
Proof.
  intros Hs. induction rows as [|r rows IH]; [done|].
  rewrite (filter_cons (λ r, r.1.1 ∈ froms)).
  destruct (decide (r.1.1 ∈ froms)) as [Hin|Hout].
  - rewrite !filter_cons. destruct (decide (r.1.1 = s)); by rewrite IH.
  - rewrite IH, filter_cons. destruct (decide (r.1.1 = s)) as [Heq|]; [|done].
    by rewrite Heq in Hout.
Qed.

Lemma bar_series_listed rows froms :
  bar_series (filter (λ r, r.1.1 ∈ froms) rows) froms
  = (λ s, (s, leaving rows s)) <$> froms.
Proof.
  unfold bar_series, leaving. apply list_fmap_ext. intros n s Hn.
  by rewrite filter_from_listed by by eapply list_elem_of_lookup_2.
Qed.

Lemma bar_charts_closed lib flow vals nodes S T D :
  roles nodes S T D →
  plot_stacked_bar_chart lib flow vals nodes
  = (stacked_bars lib T
       ((λ s, (s, leaving (flow_rows flow vals) s)) <$> S)
       "Flow from Sources to Transshipment Nodes";;
     show lib;;
     stacked_bars lib D
       ((λ k, (k, leaving (flow_rows flow vals) k)) <$> T)
       "Flow from Transshipment Nodes to Destinations";;
     show lib).
Proof.
  intros (HS & HT & HD)%getitem_roles. unfold plot_stacked_bar_chart.
  rewrite HS, HT, HD. simpl. fold (flow_rows flow vals).
  by rewrite !bar_series_listed.
Qed.

(** X13.  With the three node lists in place the bar-chart routine raises
    nothing of its own.  It renders two charts in turn: over the
    transshipment nodes one series per source, over the destinations one
    series per transshipment node; a series holds, in the order of the
    entries of [flow], every flow that leaves its node, wherever that flow
    ends and whether or not it has a value. *)
Theorem bar_charts_hold_all_leaving_flows lib flow vals nodes S T D :
  roles nodes S T D →
  plot_stacked_bar_chart lib flow vals nodes
  = (stacked_bars lib T
       ((λ s, (s, leaving (flow_rows flow vals) s)) <$> S)
       "Flow from Sources to Transshipment Nodes";;
     show lib;;
     stacked_bars lib D
       ((λ k, (k, leaving (flow_rows flow vals) k)) <$> T)
       "Flow from Transshipment Nodes to Destinations";;
     show lib).
Proof. apply bar_charts_closed. Qed.

(** ** A [nodes] dictionary without one of its lists *)

(** X14.  When [nodes] lacks one of the keys ['sources'],
    ['transshipments'], ['destinations'], each of the three routines raises
    [KeyError] on the first that is missing, before it does anything else:
    whatever its other arguments and the libraries. *)
Theorem missing_role_list_raises nodes :
  (¬ ∃ S T D, roles nodes S T D) →
  ∃ k, k ∈ ["sources"; "transshipments"; "destinations"] ∧
       nodes !! k = None ∧
       (∀ lib supply demand cost pn pb,
          solve_transshipment_problem lib nodes supply demand cost pn pb
          = Raise (KeyError (KeyStr k))) ∧
       (∀ lib supply demand cost flow vals,
          plot_transshipment_network lib nodes supply demand cost flow vals
          = Raise (KeyError (KeyStr k))) ∧
       (∀ lib flow vals,
          plot_stacked_bar_chart lib flow vals nodes
          = Raise (KeyError (KeyStr k))).
Proof.
  intros Hno.
  destruct (nodes !! "sources") as [S|] eqn:HS.
  2: { exists "sources". split; [set_solver|]. split; [done|].
       unfold solve_transshipment_problem, build_problem,
         plot_transshipment_network, plot_stacked_bar_chart, getitem.
       rewrite HS. by repeat split. }
  destruct (nodes !! "transshipments") as [T|] eqn:HT.
  2: { exists "transshipments". split; [set_solver|]. split; [done|].
       unfold solve_transshipment_problem, build_problem,
         plot_transshipment_network, plot_stacked_bar_chart, getitem.
       rewrite HS, HT. by repeat split. }
  destruct (nodes !! "destinations") as [D|] eqn:HD.
  2: { exists "destinations". split; [set_solver|]. split; [done|].
       unfold solve_transshipment_problem, build_problem,
         plot_transshipment_network, plot_stacked_bar_chart, getitem.
       rewrite HS, HT, HD. by repeat split. }
  exfalso. apply Hno. by exists S, T, D.
Qed.

(** ** Optima that exist, and optima that do not *)

Lemma Qsum_nonneg {A} (f : A → Q) l :
  (∀ x, x ∈ l → (0 <= f x)%Q) → (0 <= Qsum (f <$> l))%Q.
Proof.
  intros Hf. rewrite <- (Qsum_zero l). by apply Qsum_le.
Qed.

Lemma flow_cost_one_more_out (l : list (arc * Q)) a f :
  a ∉ l.*1 →
  Qsum ((λ ac, ac.2 * one_more a f ac.1)%Q <$> l)
  = Qsum ((λ ac, ac.2 * f ac.1)%Q <$> l).
Proof.
  intros Ha. f_equal. apply list_fmap_ext. intros n [b c] Hn. simpl.
  unfold one_more. destruct (decide (b = a)) as [->|]; [|done].
  exfalso. apply Ha. apply list_elem_of_fmap. exists (a, c).
  split; [done|]. by eapply list_elem_of_lookup_2.
Qed.

Lemma flow_cost_one_more_in (l : list (arc * Q)) a c f :
  NoDup l.*1 → (a, c) ∈ l →
  (Qsum ((λ ac, ac.2 * one_more a f ac.1) <$> l)
   == Qsum ((λ ac, ac.2 * f ac.1) <$> l) + c)%Q.
Proof.
  induction l as [|[b d] l IH]; intros Hnd Hin.
  { by apply elem_of_nil in Hin. }
  rewrite fmap_cons in Hnd. apply NoDup_cons in Hnd as [Hb Hnd].
  rewrite !fmap_cons, !Qsum_cons. simpl.
  apply elem_of_cons in Hin as [[= <- <-]|Hin].
  - rewrite flow_cost_one_more_out by done.
    unfold one_more at 1. rewrite decide_True by done. ring.
  - rewrite IH by done. unfold one_more at 1.
    destruct (decide (b = a)) as [->|]; [|ring].
    exfalso. apply Hb. apply list_elem_of_fmap. by exists (a, c).
Qed.

Lemma one_more_sum {A} (g : A → arc) a f l :
  (∀ x, x ∈ l → g x ≠ a) →
  Qsum ((λ x, one_more a f (g x)) <$> l) = Qsum ((λ x, f (g x)) <$> l).
Proof.
  intros Hg. f_equal. apply list_fmap_ext. intros n x Hn. unfold one_more.
  rewrite decide_False; [done|]. by eapply Hg, list_elem_of_lookup_2.
Qed.

Lemma one_more_feasible S T D supply demand cost a f :
  ¬ three_tier S T D a →
  (∀ b, in_model S T D cost b → (0 <= f b)%Q) ∧
  supply_limits S T supply f ∧ demand_met T D demand f ∧ conserved S T D f →
  (∀ b, in_model S T D cost b → (0 <= one_more a f b)%Q) ∧
  supply_limits S T supply (one_more a f) ∧
  demand_met T D demand (one_more a f) ∧ conserved S T D (one_more a f).
Proof.
  intros Hna (Hnn & Hsup & Hdem & Hcon). unfold three_tier in Hna.
  split; [|split; [|split]].
  - intros b Hb. unfold one_more. destruct (decide (b = a)) as [->|].
    + specialize (Hnn a Hb). lra.
    + by apply Hnn.
  - intros i s Hi Hs. unfold outflow.
    rewrite (one_more_sum (λ j, (i, j))); [by apply Hsup|].
    intros j Hj <-. apply Hna. by left.
  - intros j d Hj Hd. unfold inflow.
    rewrite (one_more_sum (λ i, (i, j))); [by apply Hdem|].
    intros k Hk <-. apply Hna. by right.
  - intros k Hk. unfold inflow, outflow.
    rewrite (one_more_sum (λ i, (i, k))), (one_more_sum (λ j, (k, j))).
    + by apply Hcon.
    + intros j Hj <-. apply Hna. by right.
    + intros i Hi <-. apply Hna. by left.
Qed.

(** X15.  A key of [cost] that is not an arc of the three tiers and has a
    negative cost leaves the model without an optimum: its variable is in
    no constraint, so one more unit on it keeps a point feasible and makes
    it cheaper. *)
Theorem negative_stray_cost_has_no_optimum nodes supply demand cost S T D
    p flow a c :
  roles nodes S T D →
  build_problem nodes supply demand cost = Ok (p, flow) →
  cost !! a = Some c → (c < 0)%Q → ¬ three_tier S T D a →
  ∀ σ, ¬ lp_optimal p σ.
Proof.
  intros Hroles ([Hc _] & -> & _)%(build_problem_Ok _ _ _ _ _ _ _ _ _ Hroles).
  intros Hac Hneg Hna σ [Hf Hopt].
  specialize (Hopt (one_more a σ)).
  rewrite !lp_feasible_model in * by done.
  specialize (Hopt (one_more_feasible _ _ _ _ _ _ _ _ Hna Hf)).
  simpl in Hopt.
  rewrite (eval_objective S T D supply demand cost σ) in Hopt.
  rewrite (eval_objective S T D supply demand cost (one_more a σ)) in Hopt.
  unfold flow_cost in Hopt.
  rewrite (flow_cost_one_more_in (entries cost) a c σ) in Hopt.
  - lra.
  - apply keys_NoDup.
  - by apply elem_of_entries.
Qed.

(** X16.  When no cost is negative, no supply is negative and no demand is
    positive, shipping nothing is an optimum of the model that is built,
    and it costs 0. *)
Theorem nothing_to_ship_costs_nothing nodes supply demand cost S T D p flow :
  roles nodes S T D →
  build_problem nodes supply demand cost = Ok (p, flow) →
  (∀ a c, cost !! a = Some c → (0 <= c)%Q) →
  (∀ i s, i ∈ S → supply !! i = Some s → (0 <= s)%Q) →
  (∀ j d, j ∈ D → demand !! j = Some d → (d <= 0)%Q) →
  lp_optimal p (λ _, 0%Q) ∧
  minimum_cost S T D supply demand cost 0.
Proof.
  intros Hroles ([Hc _] & -> & _)%(build_problem_Ok _ _ _ _ _ _ _ _ _ Hroles).
  intros Hcost Hsup Hdem.
  assert (feasible_flow S T D supply demand cost (λ _, 0%Q)) as Hzero.
  { split; [|split; [|split]].
    - intros a _. apply Qle_refl.
    - intros i s Hi Hs. unfold outflow. rewrite Qsum_zero. by eapply Hsup.
    - intros j d Hj Hd. unfold inflow. rewrite Qsum_zero. by eapply Hdem.
    - intros k Hk. unfold inflow, outflow. by rewrite !Qsum_zero. }
  assert (flow_cost cost (λ _, 0%Q) == 0)%Q as Hfree.
  { unfold flow_cost.
    rewrite (Qsum_fmap_ext _ (λ _, 0%Q)); [apply Qsum_zero|].
    intros ac _. simpl. ring. }
  assert (∀ g, (∀ a, in_model S T D cost a → (0 <= g a)%Q) →
               (0 <= flow_cost cost g)%Q) as Hlow.
  { intros g Hnn. apply Qsum_nonneg.
    intros [a c] Hin%elem_of_entries. simpl.
    destruct (Qeq_dec c 0) as [Hz|Hz].
    - rewrite Hz. rewrite Qmult_0_l. apply Qle_refl.
    - apply Qmult_le_0_compat; [by eapply Hcost|].
      apply Hnn. right. by exists c. }
  split.
  - split; [by apply feasible_flow_lp|].
    intros σ' (Hnn & _)%lp_feasible_model; [|done]. simpl.
    rewrite (eval_objective S T D supply demand cost (λ _, 0%Q)).
    rewrite (eval_objective S T D supply demand cost σ').
    rewrite Hfree. by apply Hlow.
  - split; [by exists (λ _, 0%Q)|].
    intros g (Hnn & _). apply Hlow. intros a Ha.
    by apply Hnn, (in_model_in_cost _ _ _ _ _ _ Hc).
Qed.

(** ** The plots inside the call *)

Lemma flow_dict_value cost vals a :
  is_Some (cost !! a) → flow_value (flow_dict cost) vals a = vals a.
Proof.
  intros Ha. unfold flow_value.
  by rewrite (proj2 (lookup_flow_dict cost a (flow_var a))).
Qed.

(** X17.  When every key of [cost] has a variable with a value after the
    solve step and both plots are asked for, the call draws the network,
    then the two bar charts, and only then returns the pair: it returns
    exactly when all these renderings succeed. *)
Theorem plots_run_in_order lib nodes supply demand cost S T D p flow st vals :
  roles nodes S T D →
  build_problem nodes supply demand cost = Ok (p, flow) →
  solve lib (posed p) = Ok (st, vals) →
  (∀ a, is_Some (cost !! a) → is_Some (stored (posed p) vals a)) →
  solve_transshipment_problem lib nodes supply demand cost true true
  = (draw_networkx lib
       (network_graph S T D cost flow (stored (posed p) vals)) pos;;
     draw_networkx_edge_labels lib
       (network_graph S T D cost flow (stored (posed p) vals)) pos
       (network_labels lib cost flow (stored (posed p) vals));;
     show lib;;
     stacked_bars lib T
       ((λ s, (s, leaving (flow_rows flow (stored (posed p) vals)) s)) <$> S)
       "Flow from Sources to Transshipment Nodes";;
     show lib;;
     stacked_bars lib D
       ((λ k, (k, leaving (flow_rows flow (stored (posed p) vals)) k)) <$> T)
       "Flow from Transshipment Nodes to Destinations";;
     show lib;;
     Ok (returned p vals)).
Proof.
  intros Hroles Hb Hs Hvals.
  rewrite (run_after_solve _ _ _ _ _ _ _ _ _ _ _ Hb Hs).
  apply (build_problem_Ok _ _ _ _ _ _ _ _ _ Hroles) in Hb as (_ & _ & ->).
  rewrite (network_plot_closed lib nodes supply demand cost
             (flow_dict cost) (stored (posed p) vals) S T D Hroles).
  2: { intros a Ha. rewrite flow_dict_value by done. by apply Hvals. }
  rewrite (bar_charts_closed lib (flow_dict cost) (stored (posed p) vals)
             nodes S T D Hroles).
  destruct (draw_networkx _ _ _) as [[]|?]; simpl; [|done].
  destruct (draw_networkx_edge_labels _ _ _ _) as [[]|?]; simpl; [|done].
  destruct (show lib) as [[]|?]; simpl; [|done].
  destruct (stacked_bars lib T _ _) as [[]|?]; simpl; [|done].
  destruct (stacked_bars lib D _ _) as [[]|?]; simpl; done.
Qed.

(** X18.  When some key of [cost] has no value in its variable after the
    solve step (the solver gave none, or the problem does not have the
    variable) and the network plot is asked for, the call does not return
    its pair: once the graph is drawn it raises [TypeError]. *)
Theorem unsolved_values_break_the_network_plot lib nodes supply demand cost
    S T D p flow st vals pb :
  roles nodes S T D →
  build_problem nodes supply demand cost = Ok (p, flow) →
  solve lib (posed p) = Ok (st, vals) →
  (∃ a, is_Some (cost !! a) ∧ stored (posed p) vals a = None) →
  solve_transshipment_problem lib nodes supply demand cost true pb
  = (draw_networkx lib
       (network_graph S T D cost flow (stored (posed p) vals)) pos;;
     Raise format_error).
Proof.
  intros Hroles Hb Hs (a & Ha & Hnone).
  rewrite (run_after_solve _ _ _ _ _ _ _ _ _ _ _ Hb Hs).
  apply (build_problem_Ok _ _ _ _ _ _ _ _ _ Hroles) in Hb as (_ & _ & ->).
  rewrite (network_plot_stuck lib nodes supply demand cost
             (flow_dict cost) (stored (posed p) vals) S T D Hroles).
  - by destruct (draw_networkx _ _ _) as [[]|?].
  - apply flow_dict_covers.
  - exists a. split; [done|]. by rewrite flow_dict_value.
Qed.

(** * The further properties on the small network *)

Lemma flow_conserved_when_optimal_witness :
  solver_contract lib_optimal ∧
  roles nodes_small ["F1"] ["XD1"] ["DC1"] ∧
  build_problem nodes_small supply_ample demand_small cost_small
  = Ok (p_feasible, flow_dict cost_small) ∧
  solve lib_optimal (posed p_feasible) = Ok (LpStatusOptimal, shipped 3 3) ∧
  solve_transshipment_problem lib_optimal nodes_small supply_ample
    demand_small cost_small true false
  = Ok (table (Some 3%Q) (Some 3%Q), Some 18%Q) ∧
  recorded (table (Some 3%Q) (Some 3%Q)) p_feasible
    (total (stored (posed p_feasible) (shipped 3 3))) ∧
  conserved ["F1"] ["XD1"] ["DC1"]
    (total (stored (posed p_feasible) (shipped 3 3))).
Proof.
  split; [exact lib_optimal_contract|]. split; [vm_compute; auto|].
  split; [evaluate|]. split; [evaluate|]. split; [evaluate|].
  exact (flow_conserved_when_optimal lib_optimal nodes_small
           supply_ample demand_small cost_small ["F1"] ["XD1"] ["DC1"]
           p_feasible (flow_dict cost_small) (shipped 3 3)
           lib_optimal_contract roles_small build_feasible solve_feasible
           true false _ _ (run_feasible true false)).
Defined.

Lemma constraints_in_order_witness :
  roles nodes_small ["F1"] ["XD1"] ["DC1"] ∧
  build_problem nodes_small supply_ample demand_small cost_small
  = Ok (p_feasible, flow_dict cost_small) ∧
  (λ nc, (nc.1, c_sense nc.2)) <$> constraints p_feasible
  = [("Supply_F1", LpConstraintLE); ("Demand_DC1", LpConstraintGE);
     ("Transshipment_XD1", LpConstraintEQ)].
Proof.
  split; [exact roles_small|]. split; [exact build_feasible|].
  exact (constraints_in_order nodes_small supply_ample demand_small cost_small
           ["F1"] ["XD1"] ["DC1"] _ _ roles_small build_feasible).
Defined.




Lemma empty_cost_gives_dummy_row_witness :
  solve_transshipment_problem lib_silent nodes_no_hub supply_ample
    demand_small ∅ false true = Ok ([("__dummy", None)], None) ∧
  ([("__dummy", None)] : DataFrame) = [("__dummy", None)] ∧
  (None : option Q) = None.
Proof.
  assert (solve_transshipment_problem lib_silent nodes_no_hub supply_ample
            demand_small ∅ false true = Ok ([("__dummy", None)], None))
    as Hr by evaluate.
  split; [exact Hr|].
  exact (empty_cost_gives_dummy_row lib_silent nodes_no_hub supply_ample
           demand_small false true _ _ Hr).
Defined.

Lemma model_means_transshipment_witness :
  roles nodes_small ["F1"] ["XD1"] ["DC1"] ∧
  build_problem nodes_small supply_ample demand_small cost_free
  = Ok (p_free, flow_dict cost_free) ∧
  (lp_feasible p_free (total (shipped 3 3)) ↔
   (∀ a, in_model ["F1"] ["XD1"] ["DC1"] cost_free a →
         (0 <= total (shipped 3 3) a)%Q) ∧
   supply_limits ["F1"] ["XD1"] supply_ample (total (shipped 3 3)) ∧
   demand_met ["XD1"] ["DC1"] demand_small (total (shipped 3 3)) ∧
   conserved ["F1"] ["XD1"] ["DC1"] (total (shipped 3 3))) ∧
  (eval (total (shipped 3 3)) (objective p_free)
   == flow_cost cost_free (total (shipped 3 3)))%Q.
Proof.
  split; [exact roles_small|]. split; [exact build_free|].
  exact (model_means_transshipment nodes_small supply_ample demand_small
           cost_free ["F1"] ["XD1"] ["DC1"] _ _ (total (shipped 3 3))
           roles_small build_free).
Defined.

Lemma shortage_is_infeasible_witness :
  roles nodes_small ["F1"] ["XD1"] ["DC1"] ∧
  build_problem nodes_small supply_short demand_large cost_small
  = Ok (p_infeasible, flow_dict cost_small) ∧
  (total_supply ["F1"] supply_short < total_demand ["DC1"] demand_large)%Q ∧
  ∀ σ, ¬ lp_feasible p_infeasible σ.
Proof.
  assert (total_supply ["F1"] supply_short
          < total_demand ["DC1"] demand_large)%Q as Hlt by evaluate.
  split; [exact roles_small|]. split; [exact build_infeasible|].
  split; [exact Hlt|].
  exact (shortage_is_infeasible nodes_small supply_short demand_large
           cost_small ["F1"] ["XD1"] ["DC1"] _ _ roles_small build_infeasible
           Hlt).
Defined.

Lemma no_transshipment_no_delivery_witness :
  roles nodes_no_hub ["F1"] [] ["DC1"] ∧
  build_problem nodes_no_hub supply_ample demand_small ∅
  = Ok (p_no_hub, flow_dict ∅) ∧
  "DC1" ∈ ["DC1"] ∧ demand_small !! "DC1" = Some 3%Q ∧ (0 < 3)%Q ∧
  ∀ σ, ¬ lp_feasible p_no_hub σ.
Proof.
  assert (roles nodes_no_hub ["F1"] [] ["DC1"]) as Hr by (vm_compute; auto).
  assert (demand_small !! "DC1" = Some 3%Q) as Hd by evaluate.
  assert (0 < 3)%Q as Hpos by evaluate.
  split; [exact Hr|]. split; [exact build_no_hub|].
  split; [apply list_elem_of_here|]. split; [exact Hd|]. split; [exact Hpos|].
  exact (no_transshipment_no_delivery nodes_no_hub supply_ample demand_small
           ∅ ["F1"] ["DC1"] _ _ "DC1" 3%Q Hr build_no_hub
           (list_elem_of_here _ _) Hd Hpos).
Defined.

Lemma only_listed_nodes_are_read_witness :
  roles nodes_small ["F1"] ["XD1"] ["DC1"] ∧
  (∀ i, i ∈ ["F1"] → supply_ample !! i = supply_more !! i) ∧
  (∀ j, j ∈ ["DC1"] → demand_small !! j = demand_small !! j) ∧
  supply_ample !! "ZZ" ≠ supply_more !! "ZZ" ∧
  solve_transshipment_problem lib_optimal nodes_small supply_ample
    demand_small cost_small true true
  = solve_transshipment_problem lib_optimal nodes_small supply_more
      demand_small cost_small true true.
Proof.
  assert (∀ i, i ∈ ["F1"] → supply_ample !! i = supply_more !! i) as Hs.
  { intros i Hi. apply list_elem_of_singleton in Hi. subst i. evaluate. }
  assert (∀ j, j ∈ ["DC1"] → demand_small !! j = demand_small !! j) as Hd
    by reflexivity.
  split; [exact roles_small|]. split; [exact Hs|]. split; [exact Hd|].
  split; [vm_compute; discriminate|].
  exact (only_listed_nodes_are_read lib_optimal nodes_small supply_ample
           supply_more demand_small demand_small cost_small
           ["F1"] ["XD1"] ["DC1"] true true roles_small Hs Hd).
Defined.

Lemma network_plot_draws_every_key_witness :
  roles nodes_small ["F1"] ["XD1"] ["DC1"] ∧
  (∀ a, is_Some (cost_small !! a) →
        is_Some (flow_value (flow_dict cost_small) (shipped 3 3) a)) ∧
  plot_transshipment_network lib_optimal nodes_small supply_ample
    demand_small cost_small (flow_dict cost_small) (shipped 3 3)
  = (draw_networkx lib_optimal
       (network_graph ["F1"] ["XD1"] ["DC1"] cost_small
          (flow_dict cost_small) (shipped 3 3)) pos;;
     draw_networkx_edge_labels lib_optimal
       (network_graph ["F1"] ["XD1"] ["DC1"] cost_small
          (flow_dict cost_small) (shipped 3 3)) pos
       (network_labels lib_optimal cost_small (flow_dict cost_small)
          (shipped 3 3));;
     show lib_optimal).
Proof.
  assert (∀ a, is_Some (cost_small !! a) →
               is_Some (flow_value (flow_dict cost_small) (shipped 3 3) a))
    as Hv.
  { intros a Ha. apply cost_small_keys in Ha. destruct Ha as [Ha|Ha];
      subst a; eexists; evaluate. }
  split; [exact roles_small|]. split; [exact Hv|].
  exact (network_plot_draws_every_key lib_optimal nodes_small supply_ample
           demand_small cost_small (flow_dict cost_small) (shipped 3 3)
           ["F1"] ["XD1"] ["DC1"] roles_small Hv).
Defined.

Lemma network_plot_cannot_format_None_witness :
  roles nodes_small ["F1"] ["XD1"] ["DC1"] ∧
  (∀ a, is_Some (cost_small !! a) → is_Some (flow_dict cost_small !! a)) ∧
  (∃ a, is_Some (cost_small !! a) ∧
        flow_value (flow_dict cost_small) (λ _, None) a = None) ∧
  plot_transshipment_network lib_silent nodes_small supply_ample
    demand_small cost_small (flow_dict cost_small) (λ _, None)
  = (draw_networkx lib_silent
       (network_graph ["F1"] ["XD1"] ["DC1"] cost_small
          (flow_dict cost_small) (λ _, None)) pos;;
     Raise format_error).
Proof.
  assert (∀ a, is_Some (cost_small !! a) → is_Some (flow_dict cost_small !! a))
    as Hc by exact (flow_dict_covers cost_small).
  assert (∃ a, is_Some (cost_small !! a) ∧
               flow_value (flow_dict cost_small) (λ _, None) a = None) as Hn.
  { exists ("F1", "XD1"). split; [eexists; evaluate | evaluate]. }
  split; [exact roles_small|]. split; [exact Hc|]. split; [exact Hn|].
  exact (network_plot_cannot_format_None lib_silent nodes_small supply_ample
           demand_small cost_small (flow_dict cost_small) (λ _, None)
           ["F1"] ["XD1"] ["DC1"] roles_small Hc Hn).
Defined.

Lemma network_plot_needs_every_flow_witness :
  roles nodes_small ["F1"] ["XD1"] ["DC1"] ∧
  (∃ a, is_Some (cost_small !! a) ∧ (∅ : pydict LpVariable) !! a = None) ∧
  ∃ a, is_Some (cost_small !! a) ∧ (∅ : pydict LpVariable) !! a = None ∧
       ∀ lib supply demand vals,
         plot_transshipment_network lib nodes_small supply demand cost_small
           ∅ vals = Raise (KeyError (KeyArc a)).
Proof.
  assert (∃ a, is_Some (cost_small !! a) ∧
               (∅ : pydict LpVariable) !! a = None) as Hm.
  { exists ("F1", "XD1"). split; [eexists; evaluate | reflexivity]. }
  split; [exact roles_small|]. split; [exact Hm|].
  exact (network_plot_needs_every_flow nodes_small cost_small ∅
           ["F1"] ["XD1"] ["DC1"] roles_small Hm).
Defined.

Lemma bar_charts_hold_all_leaving_flows_witness :
  roles nodes_small ["F1"] ["XD1"] ["DC1"] ∧
  leaving (flow_rows (flow_dict cost_direct) (shipped 3 3)) "F1"
  = [("XD1", Some 3%Q); ("DC1", None)] ∧
  plot_stacked_bar_chart lib_optimal (flow_dict cost_direct) (shipped 3 3)
    nodes_small
  = (stacked_bars lib_optimal ["XD1"]
       ((λ s, (s, leaving (flow_rows (flow_dict cost_direct) (shipped 3 3)) s))
          <$> ["F1"])
       "Flow from Sources to Transshipment Nodes";;
     show lib_optimal;;
     stacked_bars lib_optimal ["DC1"]
       ((λ k, (k, leaving (flow_rows (flow_dict cost_direct) (shipped 3 3)) k))
          <$> ["XD1"])
       "Flow from Transshipment Nodes to Destinations";;
     show lib_optimal).
Proof.
  split; [exact roles_small|]. split; [evaluate|].
  exact (bar_charts_hold_all_leaving_flows lib_optimal (flow_dict cost_direct)
           (shipped 3 3) nodes_small ["F1"] ["XD1"] ["DC1"] roles_small).
Defined.

Lemma missing_role_list_raises_witness :
  (¬ ∃ S T D, roles (∅ : gmap string (list node)) S T D) ∧
  ∃ k, k ∈ ["sources"; "transshipments"; "destinations"] ∧
       (∅ : gmap string (list node)) !! k = None ∧
       (∀ lib supply demand cost pn pb,
          solve_transshipment_problem lib ∅ supply demand cost pn pb
          = Raise (KeyError (KeyStr k))) ∧
       (∀ lib supply demand cost flow vals,
          plot_transshipment_network lib ∅ supply demand cost flow vals
          = Raise (KeyError (KeyStr k))) ∧
       (∀ lib flow vals,
          plot_stacked_bar_chart lib flow vals ∅
          = Raise (KeyError (KeyStr k))).
Proof.
  assert (¬ ∃ S T D, roles (∅ : gmap string (list node)) S T D) as Hno.
  { intros (S & T & D & HS & _). discriminate HS. }
  split; [exact Hno|].
  exact (missing_role_list_raises ∅ Hno).
Defined.

Lemma negative_stray_cost_has_no_optimum_witness :
  roles nodes_small ["F1"] ["XD1"] ["DC1"] ∧
  build_problem nodes_small supply_ample demand_small cost_rebate
  = Ok (model ["F1"] ["XD1"] ["DC1"] supply_ample demand_small cost_rebate,
        flow_dict cost_rebate) ∧
  cost_rebate !! ("F1", "DC1") = Some (-1)%Q ∧ (-1 < 0)%Q ∧
  ¬ three_tier ["F1"] ["XD1"] ["DC1"] ("F1", "DC1") ∧
  ∀ σ, ¬ lp_optimal
           (model ["F1"] ["XD1"] ["DC1"] supply_ample demand_small cost_rebate)
           σ.
Proof.
  assert (build_problem nodes_small supply_ample demand_small cost_rebate
          = Ok (model ["F1"] ["XD1"] ["DC1"] supply_ample demand_small
                  cost_rebate, flow_dict cost_rebate)) as Hb by evaluate.
  assert (cost_rebate !! ("F1", "DC1") = Some (-1)%Q) as Hc by evaluate.
  assert (-1 < 0)%Q as Hneg by evaluate.
  split; [exact roles_small|]. split; [exact Hb|]. split; [exact Hc|].
  split; [exact Hneg|]. split; [exact not_three_tier_direct|].
  exact (negative_stray_cost_has_no_optimum nodes_small supply_ample
           demand_small cost_rebate ["F1"] ["XD1"] ["DC1"] _ _ ("F1", "DC1")
           (-1)%Q roles_small Hb Hc Hneg not_three_tier_direct).
Defined.

Lemma nothing_to_ship_costs_nothing_witness :
  roles nodes_small ["F1"] ["XD1"] ["DC1"] ∧
  build_problem nodes_small supply_ample demand_none cost_small
  = Ok (model ["F1"] ["XD1"] ["DC1"] supply_ample demand_none cost_small,
        flow_dict cost_small) ∧
  (∀ a c, cost_small !! a = Some c → (0 <= c)%Q) ∧
  (∀ i s, i ∈ ["F1"] → supply_ample !! i = Some s → (0 <= s)%Q) ∧
  (∀ j d, j ∈ ["DC1"] → demand_none !! j = Some d → (d <= 0)%Q) ∧
  lp_optimal (model ["F1"] ["XD1"] ["DC1"] supply_ample demand_none cost_small)
    (λ _, 0%Q) ∧
  minimum_cost ["F1"] ["XD1"] ["DC1"] supply_ample demand_none cost_small 0.
Proof.
  assert (build_problem nodes_small supply_ample demand_none cost_small
          = Ok (model ["F1"] ["XD1"] ["DC1"] supply_ample demand_none
                  cost_small, flow_dict cost_small)) as Hb by evaluate.
  assert (∀ a c, cost_small !! a = Some c → (0 <= c)%Q) as Hc.
  { intros a c Hac.
    assert (is_Some (cost_small !! a)) as Hk by (by eexists).
    apply cost_small_keys in Hk. destruct Hk as [Hk|Hk]; subst a;
      vm_compute in Hac; injection Hac as <-; discriminate. }
  assert (∀ i s, i ∈ ["F1"] → supply_ample !! i = Some s → (0 <= s)%Q) as Hs.
  { intros i s Hi His. apply list_elem_of_singleton in Hi. subst i.
    vm_compute in His. injection His as <-. discriminate. }
  assert (∀ j d, j ∈ ["DC1"] → demand_none !! j = Some d → (d <= 0)%Q) as Hd.
  { intros j d Hj Hjd. apply list_elem_of_singleton in Hj. subst j.
    vm_compute in Hjd. injection Hjd as <-. discriminate. }
  split; [exact roles_small|]. split; [exact Hb|]. split; [exact Hc|].
  split; [exact Hs|]. split; [exact Hd|].
  exact (nothing_to_ship_costs_nothing nodes_small supply_ample demand_none
           cost_small ["F1"] ["XD1"] ["DC1"] _ _ roles_small Hb Hc Hs Hd).
Defined.

Lemma plots_run_in_order_witness :
  roles nodes_small ["F1"] ["XD1"] ["DC1"] ∧
  build_problem nodes_small supply_ample demand_small cost_small
  = Ok (p_feasible, flow_dict cost_small) ∧
  solve lib_optimal (posed p_feasible) = Ok (LpStatusOptimal, shipped 3 3) ∧
  (∀ a, is_Some (cost_small !! a) →
        is_Some (stored (posed p_feasible) (shipped 3 3) a)) ∧
  solve_transshipment_problem lib_optimal nodes_small supply_ample
    demand_small cost_small true true
  = (draw_networkx lib_optimal
       (network_graph ["F1"] ["XD1"] ["DC1"] cost_small
          (flow_dict cost_small) (stored (posed p_feasible) (shipped 3 3)))
       pos;;
     draw_networkx_edge_labels lib_optimal
       (network_graph ["F1"] ["XD1"] ["DC1"] cost_small
          (flow_dict cost_small) (stored (posed p_feasible) (shipped 3 3)))
       pos
       (network_labels lib_optimal cost_small (flow_dict cost_small)
          (stored (posed p_feasible) (shipped 3 3)));;
     show lib_optimal;;
     stacked_bars lib_optimal ["XD1"]
       ((λ s, (s, leaving (flow_rows (flow_dict cost_small)
                             (stored (posed p_feasible) (shipped 3 3))) s))
          <$> ["F1"])
       "Flow from Sources to Transshipment Nodes";;
     show lib_optimal;;
     stacked_bars lib_optimal ["DC1"]
       ((λ k, (k, leaving (flow_rows (flow_dict cost_small)
                             (stored (posed p_feasible) (shipped 3 3))) k))
          <$> ["XD1"])
       "Flow from Transshipment Nodes to Destinations";;
     show lib_optimal;;
     Ok (returned p_feasible (shipped 3 3))).
Proof.
  assert (∀ a, is_Some (cost_small !! a) →
               is_Some (stored (posed p_feasible) (shipped 3 3) a)) as Hv.
  { intros a Ha. apply cost_small_keys in Ha. destruct Ha as [Ha|Ha];
      subst a; eexists; evaluate. }
  split; [exact roles_small|]. split; [exact build_feasible|].
  split; [exact solve_feasible|]. split; [exact Hv|].
  exact (plots_run_in_order lib_optimal nodes_small supply_ample demand_small
           cost_small ["F1"] ["XD1"] ["DC1"] _ _ _ _ roles_small
           build_feasible solve_feasible Hv).
Defined.

Lemma unsolved_values_break_the_network_plot_witness :
  roles nodes_small ["F1"] ["XD1"] ["DC1"] ∧
  build_problem nodes_small supply_ample demand_small cost_free
  = Ok (p_free, flow_dict cost_free) ∧
  solve lib_free (posed p_free) = Ok (LpStatusOptimal, shipped 3 3) ∧
  (∃ a, is_Some (cost_free !! a) ∧
        stored (posed p_free) (shipped 3 3) a = None) ∧
  solve_transshipment_problem lib_free nodes_small supply_ample
    demand_small cost_free true false
  = (draw_networkx lib_free
       (network_graph ["F1"] ["XD1"] ["DC1"] cost_free
          (flow_dict cost_free) (stored (posed p_free) (shipped 3 3))) pos;;
     Raise format_error).
Proof.
  assert (∃ a, is_Some (cost_free !! a) ∧
               stored (posed p_free) (shipped 3 3) a = None) as Hn.
  { exists ("F1", "DC1"). split; [eexists; evaluate | evaluate]. }
  split; [exact roles_small|]. split; [exact build_free|].
  split; [exact solve_free|]. split; [exact Hn|].
  exact (unsolved_values_break_the_network_plot lib_free nodes_small
           supply_ample demand_small cost_free ["F1"] ["XD1"] ["DC1"]
           _ _ _ _ false roles_small build_free solve_free Hn).
Defined.

Lemma repeated_name_is_refused_witness :
  roles nodes_twice ["F1"; "F1"] ["XD1"] ["DC1"] ∧
  complete ["F1"; "F1"] ["XD1"] ["DC1"] supply_ample demand_small cost_small ∧
  ¬ distinct_names ["F1"; "F1"] ["XD1"] ["DC1"] ∧
  build_problem nodes_twice supply_ample demand_small cost_small
  = Raise (PulpError "overlapping constraint names: Supply_F1") ∧
  ∃ msg, ∀ lib pn pb,
    solve_transshipment_problem lib nodes_twice supply_ample demand_small
      cost_small pn pb
    = Raise (PulpError msg).
Proof.
  assert (roles nodes_twice ["F1"; "F1"] ["XD1"] ["DC1"]) as Hr
    by (vm_compute; auto).
  assert (complete ["F1"; "F1"] ["XD1"] ["DC1"] supply_ample demand_small
            cost_small) as Hc.
  { assert (∀ i : node, i ∈ ["F1"; "F1"] → i = "F1") as Htwice.
    { intros i Hi. rewrite !elem_of_cons, elem_of_nil in Hi.
      destruct Hi as [Hi|[Hi|[]]]; exact Hi. }
    repeat split.
    - intros i k Hi Hk. apply Htwice in Hi. apply list_elem_of_singleton in Hk.
      subst i k. eexists. evaluate.
    - intros k j Hk Hj. apply list_elem_of_singleton in Hk, Hj.
      subst k j. eexists. evaluate.
    - intros i Hi. apply Htwice in Hi. subst i. eexists. evaluate.
    - intros j Hj. apply list_elem_of_singleton in Hj. subst j.
      eexists. evaluate. }
  assert (¬ distinct_names ["F1"; "F1"] ["XD1"] ["DC1"]) as Hn.
  { intros [Hnd _]. apply NoDup_cons in Hnd. destruct Hnd as [Hnd _].
    apply Hnd. apply list_elem_of_here. }
  split; [exact Hr|]. split; [exact Hc|]. split; [exact Hn|].
  split; [evaluate|].
  exact (repeated_name_is_refused nodes_twice supply_ample demand_small
           cost_small ["F1"; "F1"] ["XD1"] ["DC1"] Hr Hc Hn).
Defined.

Lemma names_are_rewritten_witness :
  build_problem nodes_small supply_ample demand_small cost_small
  = Ok (p_feasible, flow_dict cost_small) ∧
  (∀ a v, flow_dict cost_small !! a = Some v → legal_name (var_name v)) ∧
  (∀ nc, nc ∈ constraints p_feasible → legal_name nc.1).
Proof.
  split; [exact build_feasible|].
  exact (names_are_rewritten nodes_small supply_ample demand_small cost_small
           _ _ build_feasible).
Defined.
